(** * llama-assistant: the retrieval-augmented chat agent

    A shallow embedding of [src/llama_assistant/agent.py] (class [RAGAgent]
    and [convert_message_list_to_str]) and of [ProcessingThread.run] from
    [src/llama_assistant/processing_thread.py].

    The agent object is a record; its methods are written in a small
    state-and-exception monad over a [World] that pairs the agent with the
    log of the calls it made to its providers (file reader, vector index,
    retriever, language model, Qt signals).  The providers are outside the
    repository and enter as a record of oracles: each oracle receives the
    number of provider calls made so far, so two calls with the same
    arguments may answer differently. *)

From Stdlib Require Import QArith.
Close Scope Q_scope.
From stdpp Require Import gmap strings list sorting.

(** The line feed, written [\n] in the Python source. *)
Definition LF : string :=
  String (Ascii.Ascii false true false true false false false false) "".

(** ** Data model *)

(** A document as returned by [SimpleDirectoryReader.load_data]: its text and
    the two metadata entries the agent reads or writes. *)
Record Document := mkDocument {
  text : string;
  file_path : string;              (* doc.metadata['file_path'] *)
  page_index : option nat          (* doc.metadata['page_index'], when set *)
}.

Definition set_page_index (doc : Document) (n : nat) : Document :=
  {| text := text doc; file_path := file_path doc; page_index := Some n |}.

(** [NodeWithScore]: a chunk of the index with its relevance score. *)
Record NodeWithScore := mkNode {
  node : Document;
  score : Q
}.

(** One part of a structured message content. *)
Inductive Part :=
| TextPart (t : string)                 (* {"type": "text", "text": t} *)
| ImageUrlPart (url : string).          (* {"type": "image_url", "image_url": {"url": url}} *)

(** The value under ["content"] of a chat message: a [str], a [dict], or the
    [list] of parts that [llm_response] builds when an image is attached. *)
Inductive Content :=
| CStr (s : string)
| CDict (d : gmap string string)
| CParts (parts : list Part).

Record Message := mkMessage {
  role : string;
  content : Content
}.

Inductive exn :=
| TypeError
| KeyError
| ProviderError (code : nat).

(** The value under ["content"] of a delta: a string, or JSON null. *)
Inductive Json :=
| JStr (s : string)
| JNull.

(** [chunk["choices"][0]["delta"]]: each of the two keys may be missing. *)
Record Delta := mkDelta {
  delta_role : option string;
  delta_content : option Json
}.

(** One item of a streamed response: a chunk that has a delta, or one on
    which [chunk["choices"][0]["delta"]] raises. *)
Inductive Chunk :=
| WithDelta (delta : Delta)
| Malformed (e : exn).

(** What [Llama.create_chat_completion] hands back.  A streamed response is
    a generator: it yields its chunks one by one and then stops, or raises
    [fault] when asked for the chunk after the last. *)
Inductive Response :=
| Complete (answer : string)            (* ["choices"][0]["message"]["content"] *)
| Stream (chunks : list Chunk) (fault : option exn).

Inductive result (A : Type) :=
| OK (a : A)
| Raise (e : exn).
Arguments OK {A} a.
Arguments Raise {A} e.

(** ** [convert_message_list_to_str] *)

Definition message_line (message : Message) : result string :=
  match content message with
  | CStr s => OK (role message +:+ ": " +:+ s +:+ LF)
  | CDict d =>
      match d !! "text" with
      | Some t => OK (role message +:+ ": " +:+ t +:+ LF)
      | None => Raise KeyError
      end
  | CParts _ => Raise TypeError
  end.

Fixpoint convert_from (chat_history_str : string) (messages : list Message)
  : result string :=
  match messages with
  | [] => OK chat_history_str
  | message :: rest =>
      match message_line message with
      | OK line => convert_from (chat_history_str +:+ line) rest
      | Raise e => Raise e
      end
  end.

Definition convert_message_list_to_str (messages : list Message) : result string :=
  convert_from "" messages.

(** ** Prompt templates *)

Definition SUMMARY_TEMPLATE (chat_history_str query_str : string) : string :=
  "Given the chat history:" +:+ LF +:+
  "'''" +:+ chat_history_str +:+ "'''" +:+ LF +:+ LF +:+
  "And the user asked the following question:" +:+ query_str +:+ LF +:+
  "Rewrite to a standalone question:" +:+ LF.

Definition CONTEXT_PROMPT_TEMPLATE (node_context query_str : string) : string :=
  "Information that might help:" +:+ LF +:+
  "-----" +:+ LF +:+
  node_context +:+ LF +:+
  "-----" +:+ LF +:+
  "Please write a response to the following question, using the above information if relevant:" +:+ LF +:+
  query_str +:+ LF.

Definition condensed_format (history_summary query_str : string) : string :=
  "Context:" +:+ LF +:+ history_summary +:+ LF +:+ "Question: " +:+ query_str.

(** ** The page counter of [udpate_index]

    [page_num_tracker] is a [defaultdict(int)]: a missing key reads as 0. *)

Fixpoint assign_page_index (page_num_tracker : gmap string nat)
    (documents : list Document) : list Document :=
  match documents with
  | [] => []
  | doc :: rest =>
      let key := file_path doc in
      let n := default 0 (page_num_tracker !! key) in
      set_page_index doc n
        :: assign_page_index (<[key := n + 1]> page_num_tracker) rest
  end.

(** ** The agent and its world *)

Record Retriever := mkRetriever {
  similarity_top_k : nat
}.

(** The vector index is represented by the documents handed to it, in order.
    A retriever keeps a reference to the index object it was made from; that
    object is always the one in [search_index] (inserts mutate it in place),
    so a retriever only records its own setting. *)
Record RAGAgent := mkAgent {
  k : nat;
  search_index : option (list Document);
  retriever : option Retriever;
  chat_history : list Message;
  lookup_files : gset string;
  similarity_cutoff : Q              (* self.node_processor *)
}.

(** The calls that leave the agent, in the order they are made. *)
Inductive Event :=
| LoadData (files : gset string)
| ClearIndex
| FromDocuments (documents : list Document)
| InsertDocument (doc : Document)
| AsRetriever (top_k : nat)
| ARetrieve (query : string)
| ChatCompletion (messages : list Message) (stream : bool)
| UpdateSignal (fragment : string)
| FinishedSignal.

Record World := mkWorld {
  agent : RAGAgent;
  calls : list Event
}.

(** The providers.  The first argument of each fallible one is the number of
    calls logged before it. *)
Record Providers := mkProviders {
  (* SimpleDirectoryReader(input_files=files, recursive=True).load_data(...) *)
  load_data : nat -> gset string -> result (list Document);
  (* VectorStoreIndex.from_documents: None when it returns normally *)
  from_documents : nat -> list Document -> option exn;
  (* VectorStoreIndex.insert *)
  index_insert : nat -> Document -> option exn;
  (* the similarity search: the chunks of the index scored against a query *)
  similarity : nat -> list Document -> string -> result (list NodeWithScore);
  (* Llama.create_chat_completion(messages=..., stream=...) *)
  create_chat_completion : nat -> list Message -> bool -> result Response;
  (* node.get_content(metadata_mode="llm") *)
  get_content : Document -> string
}.

(** ** The monad *)

Definition M (A : Type) : Type := World -> World * result A.

Definition ret {A} (a : A) : M A := fun w => (w, OK a).

Definition raise {A} (e : exn) : M A := fun w => (w, Raise e).

Definition bind {A B} (m : M A) (f : A -> M B) : M B :=
  fun w =>
    match m w with
    | (w', OK a) => f a w'
    | (w', Raise e) => (w', Raise e)
    end.

Notation "'do' x <- m ; f" := (bind m (fun x => f))
  (at level 10, x name, m at level 100, f at level 200).

Definition self : M RAGAgent := fun w => (w, OK (agent w)).

Definition update (f : RAGAgent -> RAGAgent) : M unit :=
  fun w => ({| agent := f (agent w); calls := calls w |}, OK tt).

(** Log a call; the result is the number of calls made before it. *)
Definition call (e : Event) : M nat :=
  fun w => ({| agent := agent w; calls := calls w ++ [e] |}, OK (length (calls w))).

Definition lift {A} (r : result A) : M A := fun w => (w, r).

Definition check (fault : option exn) : M unit :=
  match fault with
  | None => ret tt
  | Some e => raise e
  end.

(** Field assignments. *)
Definition set_search_index (v : option (list Document)) (a : RAGAgent) : RAGAgent :=
  {| k := k a; search_index := v; retriever := retriever a;
     chat_history := chat_history a; lookup_files := lookup_files a;
     similarity_cutoff := similarity_cutoff a |}.

Definition set_retriever (v : option Retriever) (a : RAGAgent) : RAGAgent :=
  {| k := k a; search_index := search_index a; retriever := v;
     chat_history := chat_history a; lookup_files := lookup_files a;
     similarity_cutoff := similarity_cutoff a |}.

Definition set_chat_history (v : list Message) (a : RAGAgent) : RAGAgent :=
  {| k := k a; search_index := search_index a; retriever := retriever a;
     chat_history := v; lookup_files := lookup_files a;
     similarity_cutoff := similarity_cutoff a |}.

Definition set_lookup_files (v : gset string) (a : RAGAgent) : RAGAgent :=
  {| k := k a; search_index := search_index a; retriever := retriever a;
     chat_history := chat_history a; lookup_files := v;
     similarity_cutoff := similarity_cutoff a |}.

(** [self.search_index.insert(doc)] on the index object. *)
Definition index_append (doc : Document) (a : RAGAgent) : RAGAgent :=
  set_search_index (Some (default [] (search_index a) ++ [doc])) a.

(** ** The methods of [RAGAgent] *)

Section Agent.

Variable P : Providers.

(** [RAGAgent.__init__]; the embedding model and the language model are in
    [P]. *)
Definition init : RAGAgent :=
  {| k := 3;
     search_index := None;
     retriever := None;
     chat_history := [];
     lookup_files := ∅;
     similarity_cutoff := (3 # 10)%Q |}.

(** The loop [for doc in documents: self.search_index.insert(doc)]. *)
Fixpoint insert_documents (documents : list Document) : M unit :=
  match documents with
  | [] => ret tt
  | doc :: rest =>
      do t <- call (InsertDocument doc);
      do _ <- check (index_insert P t doc);
      do _ <- update (index_append doc);
      insert_documents rest
  end.

Definition udpate_index (files : gset string) : M unit :=
  if decide (files = ∅) then
    do _ <- call ClearIndex;
    do _ <- update (set_retriever None);
    update (set_search_index None)
  else
    do t <- call (LoadData files);
    do documents <- lift (load_data P t files);
    let documents := assign_page_index ∅ documents in
    do a <- self;
    do _ <- match search_index a with
            | None =>
                do t <- call (FromDocuments documents);
                do _ <- check (from_documents P t documents);
                update (set_search_index (Some documents))
            | Some _ => insert_documents documents
            end;
    do a <- self;
    do _ <- call (AsRetriever (k a));
    update (set_retriever (Some {| similarity_top_k := k a |})).

(** [StartEvent] and the workflow [Context] that [setup] fills. *)
Record StartEvent := mkStart {
  ev_query_str : string;
  ev_image : option string;
  ev_lookup_files : gset string;
  ev_streaming : bool
}.

Record Context := mkContext {
  query_str : string;
  image : option string;
  streaming : bool
}.

Definition setup (ev : StartEvent) : M Context :=
  let ctx := {| query_str := ev_query_str ev;
                image := ev_image ev;
                streaming := ev_streaming ev |} in
  do a <- self;
  do _ <- (if decide (ev_lookup_files ev ≠ lookup_files a)
           then udpate_index (ev_lookup_files ev)
           else ret tt);
  do _ <- update (set_lookup_files (ev_lookup_files ev));
  ret ctx.

(** The step returns [CondenseQueryEvent(condensed_query_str=...)]; the
    string is its only field. *)
Definition condense_history_to_query (ctx : Context) : M string :=
  do a <- self;
  if bool_decide (0 < length (chat_history a)) || bool_decide (retriever a ≠ None)
  then
    do chat_history_str <- lift (convert_message_list_to_str (chat_history a));
    let formated_query := SUMMARY_TEMPLATE chat_history_str (query_str ctx) in
    let messages := [ {| role := "user"; content := CStr formated_query |} ] in
    do t <- call (ChatCompletion messages false);
    do response <- lift (create_chat_completion P t messages false);
    match response with
    | Complete history_summary =>
        ret (condensed_format history_summary (query_str ctx))
    | Stream _ _ => raise TypeError    (* a generator has no ["choices"] *)
    end
  else ret (query_str ctx).

(** Modelled from the spec: the order of the retriever's result, "ranked by
    descending relevance score".  Scores are rationals. *)
Definition ranks_before (a b : NodeWithScore) : Prop :=
  Is_true (Qle_bool (score b) (score a)).

(** Modelled from the spec: [retriever.aretrieve] of the index library, which
    is not part of the repository.  It "returns up to k nodes ranked by
    descending relevance score", k being the [similarity_top_k] the retriever
    was made with. *)
Definition aretrieve (r : Retriever) (t : nat) (index : list Document)
    (query : string) : result (list NodeWithScore) :=
  match similarity P t index query with
  | OK scored => OK (take (similarity_top_k r) (merge_sort ranks_before scored))
  | Raise e => Raise e
  end.

(** Modelled from the spec: [SimilarityPostprocessor.postprocess_nodes] of
    the index library, which "drops any node with score below
    similarity_cutoff" and keeps the others in order. *)
Definition below (cutoff : Q) (n : NodeWithScore) : bool :=
  negb (Qle_bool cutoff (score n)).

Definition postprocess_nodes (cutoff : Q) (nodes : list NodeWithScore)
  : list NodeWithScore :=
  List.filter (fun n => negb (below cutoff n)) nodes.

(** The step returns [RetrievalEvent(nodes=...)]. *)
Definition retrieve (condensed_query_str : string) : M (list NodeWithScore) :=
  do a <- self;
  match retriever a with
  | None => ret []
  | Some r =>
      do t <- call (ARetrieve condensed_query_str);
      do nodes <- lift (aretrieve r t (default [] (search_index a)) condensed_query_str);
      ret (postprocess_nodes (similarity_cutoff a) nodes)
  end.

Fixpoint node_context_from (node_context : string) (nodes : list NodeWithScore)
  : string :=
  match nodes with
  | [] => node_context
  | n :: rest =>
      let node_text := get_content P (node n) in
      node_context_from (node_context +:+ LF +:+ node_text +:+ LF +:+ LF) rest
  end.

Definition _prepare_query_with_context (query_str : string)
    (nodes : list NodeWithScore) : string :=
  match nodes with
  | [] => query_str
  | _ => CONTEXT_PROMPT_TEMPLATE (node_context_from "" nodes) query_str
  end.

(** Python truth value of [image]: [None] and the empty string are false. *)
Definition truthy (image : option string) : option string :=
  match image with
  | Some "" => None
  | other => other
  end.

Definition formated_message (query_with_ctx : string) (image : option string)
  : Message :=
  match truthy image with
  | Some url =>
      {| role := "user";
         content := CParts [TextPart query_with_ctx; ImageUrlPart url] |}
  | None => {| role := "user"; content := CStr query_with_ctx |}
  end.

(** The step returns [StopEvent(result=response)]. *)
Definition llm_response (ctx : Context) (nodes : list NodeWithScore) : M Response :=
  let query_with_ctx := _prepare_query_with_context (query_str ctx) nodes in
  do a <- self;
  let messages := chat_history a ++ [formated_message query_with_ctx (image ctx)] in
  do t <- call (ChatCompletion messages (streaming ctx));
  do response <- lift (create_chat_completion P t messages (streaming ctx));
  do _ <- update (fun a =>
            set_chat_history
              (chat_history a ++ [ {| role := "user"; content := CStr (query_str ctx) |} ]) a);
  ret response.

(** One run of the workflow: the four steps in the order their event types
    chain them. *)
Definition run (ev : StartEvent) : M Response :=
  do ctx <- setup ev;
  do condensed_query_str <- condense_history_to_query ctx;
  do nodes <- retrieve condensed_query_str;
  llm_response ctx nodes.

(** ** [ProcessingThread.run] *)

Record ProcessingThread := mkThread {
  model : string;
  prompt : string;
  thread_image : option string;
  thread_lookup_files : gset string
}.

(** Modelled from the spec: [model_handler.chat_completion], whose module is
    missing from the sources.  It is one of the "thin forwarding calls into
    the pipeline": it submits {query, optional image, set of lookup files,
    streaming flag} to the workflow of the agent and returns the model's
    response.  There is one agent; the model name selects nothing here. *)
Definition chat_completion (model prompt : string) (image : option string)
    (lookup_files : gset string) (stream : bool) : M Response :=
  run {| ev_query_str := prompt; ev_image := image;
         ev_lookup_files := lookup_files; ev_streaming := stream |}.

(** Modelled from the spec: [model_handler.update_chat_history], from the
    same missing module.  It appends the turn [{role, content}] to the chat
    history of the agent, so that after a successful invocation the user turn
    is "followed eventually by {role: assistant, content: <model output>}". *)
Definition update_chat_history (message role : string) : M unit :=
  update (fun a =>
    set_chat_history
      (chat_history a ++ [ {| role := role; content := CStr message |} ]) a).

(** The body of the loop over the streamed chunks, for the chunks the
    generator yields; [print] is not modelled.  Subscripting a malformed chunk
    raises, and so does [full_response_str += None], before the signal. *)
Fixpoint collect (full_response_str : string) (output : list Chunk) : M string :=
  match output with
  | [] => ret full_response_str
  | Malformed e :: _ => raise e
  | WithDelta delta :: rest =>
      match delta_role delta, delta_content delta with
      | Some _, _ => collect full_response_str rest
      | None, Some (JStr fragment) =>
          do _ <- call (UpdateSignal fragment);
          collect (full_response_str +:+ fragment) rest
      | None, Some JNull => raise TypeError
      | None, None => collect full_response_str rest
      end
  end.

(** The result is [full_response_str]; the Python method returns nothing. *)
Definition thread_run (th : ProcessingThread) : M string :=
  do output <- chat_completion (model th) (prompt th) (thread_image th)
                 (thread_lookup_files th) true;
  match output with
  | Stream chunks fault =>
      do full_response_str <- collect "" chunks;
      do _ <- check fault;             (* the generator raises instead of stopping *)
      do _ <- update_chat_history full_response_str "assistant";
      do _ <- call FinishedSignal;
      ret full_response_str
  | Complete _ => raise TypeError      (* iterating a dict yields its keys *)
  end.

End Agent.

(** * Vocabulary of the properties *)

(** ** Page ordinals *)

(** The page ordinals carried by the documents of one source path, in list
    order. *)
Definition ordinals_of (path : string) (documents : list Document)
  : list (option nat) :=
  page_index <$> filter (λ d, file_path d = path) documents.

Definition chunks_of (path : string) (documents : list Document) : nat :=
  length (filter (λ d, file_path d = path) documents).

(** ** Frames and index refresh *)

(** Everything but the index and the log. *)
Definition index_frame (w w' : World) : Prop :=
  k (agent w') = k (agent w)
  ∧ retriever (agent w') = retriever (agent w)
  ∧ chat_history (agent w') = chat_history (agent w)
  ∧ lookup_files (agent w') = lookup_files (agent w)
  ∧ similarity_cutoff (agent w') = similarity_cutoff (agent w).

(** No fault while the stamped documents enter the index: one
    [from_documents] call when there is no index, one [insert] per document
    otherwise.  [t] is the number of calls logged before the first. *)
Definition indexing_ok (P : Providers) (t : nat)
    (old : option (list Document)) (stamped : list Document) : Prop :=
  match old with
  | None => from_documents P t stamped = None
  | Some _ => ∀ i doc, stamped !! i = Some doc -> index_insert P (t + i) doc = None
  end.

Definition index_calls (old : option (list Document))
    (stamped : list Document) : list Event :=
  match old with
  | None => [FromDocuments stamped]
  | Some _ => InsertDocument <$> stamped
  end.

(** What "clear, then rebuild from the new set" would leave behind: among the
    calls of this setup a clear and a [from_documents], and an index holding
    exactly the documents handed to that [from_documents]. *)
Definition clears_and_rebuilds (P : Providers) (ev : StartEvent) (w : World) : Prop :=
  ∃ new_calls documents,
    calls (setup P ev w).1 = calls w ++ new_calls
    ∧ ClearIndex ∈ new_calls
    ∧ FromDocuments documents ∈ new_calls
    ∧ search_index (agent (setup P ev w).1) = Some documents.

(** ** Streams, prompts, scores *)

(** The fragments [ProcessingThread.run] keeps: the content of every delta
    that has no role. *)
Fixpoint fragments (output : list Chunk) : list string :=
  match output with
  | [] => []
  | WithDelta delta :: rest =>
      match delta_role delta, delta_content delta with
      | None, Some (JStr fragment) => fragment :: fragments rest
      | _, _ => fragments rest
      end
  | Malformed _ :: rest => fragments rest
  end.

Definition condensation_prompt (transcript query_str : string) : list Message :=
  [ {| role := "user"; content := CStr (SUMMARY_TEMPLATE transcript query_str) |} ].

Definition at_least (cutoff : Q) (n : NodeWithScore) : Prop :=
  (cutoff <= score n)%Q.

Definition without_image (ev : StartEvent) : StartEvent :=
  {| ev_query_str := ev_query_str ev; ev_image := None;
     ev_lookup_files := ev_lookup_files ev; ev_streaming := ev_streaming ev |}.

(** ** Invariants of the agent *)

Definition retriever_uses_k (a : RAGAgent) : Prop :=
  ∀ r, retriever a = Some r -> similarity_top_k r = k a.

Definition settings (a a' : RAGAgent) : Prop :=
  k a' = k a
  ∧ similarity_cutoff a' = similarity_cutoff a
  ∧ (retriever_uses_k a -> retriever_uses_k a').

Definition no_files_no_retriever (a : RAGAgent) : Prop :=
  lookup_files a = ∅ -> retriever a = None.

(** The worlds an agent can be in: freshly constructed, or after any number
    of workflow runs and thread runs, failed or not. *)
Inductive reachable (P : Providers) : World -> Prop :=
| reachable_init : reachable P {| agent := init; calls := [] |}
| reachable_run ev w : reachable P w -> reachable P (run P ev w).1
| reachable_thread th w : reachable P w -> reachable P (thread_run P th w).1.

(** * Concrete providers

    A reader that yields two pages per file, an index that never faults, a
    similarity search that scores first pages 1/2 and the others 1/10, and a
    model that answers with a fixed rewrite or a fixed stream. *)

Definition two_pages (path : string) : list Document :=
  [ {| text := "first page of " +:+ path; file_path := path; page_index := None |};
    {| text := "second page of " +:+ path; file_path := path; page_index := None |} ].

Definition page_score (doc : Document) : NodeWithScore :=
  {| node := doc;
     score := match page_index doc with
              | Some 0 => (1 # 2)%Q
              | _ => (1 # 10)%Q
              end |}.

Definition sample_stream : list Chunk :=
  [ WithDelta {| delta_role := Some "assistant"; delta_content := None |};
    WithDelta {| delta_role := None; delta_content := Some (JStr "It is ") |};
    WithDelta {| delta_role := None; delta_content := Some (JStr "a file.") |};
    WithDelta {| delta_role := None; delta_content := None |} ].

Definition sample : Providers :=
  {| load_data := λ _ files, OK (flat_map two_pages (elements files));
     from_documents := λ _ _, None;
     index_insert := λ _ _, None;
     similarity := λ _ index _, OK (page_score <$> index);
     create_chat_completion := λ _ _ stream,
       OK (if stream then Stream sample_stream None else Complete "What is a.txt?");
     get_content := text |}.

(** The same, with a model that fails whenever it is asked to stream. *)
Definition sample_failing : Providers :=
  {| load_data := load_data sample;
     from_documents := from_documents sample;
     index_insert := index_insert sample;
     similarity := similarity sample;
     create_chat_completion := λ _ _ stream,
       if stream then Raise (ProviderError 1) else OK (Complete "What is a.txt?");
     get_content := get_content sample |}.

Definition fresh : World := {| agent := init; calls := [] |}.

Definition ask (question : string) (files : gset string) : StartEvent :=
  {| ev_query_str := question; ev_image := None;
     ev_lookup_files := files; ev_streaming := true |}.

(** The world after one successful run over ["a.txt"]. *)
Definition after_a : World := (run sample (ask "What is a.txt?" {[ "a.txt" ]}) fresh).1.

(** The world after a setup that built the index over two files. *)
Definition indexed_ab : World :=
  (setup sample (ask "What is there?" {[ "a.txt"; "b.txt" ]}) fresh).1.

Definition screen_question : StartEvent :=
  {| ev_query_str := "What is on the screen?";
     ev_image := Some "file:///tmp/shot.png";
     ev_lookup_files := ∅; ev_streaming := true |}.

(** * Vocabulary of the further properties *)

(** How the spec has a turn appear in the transcript: "each turn renders as
    "<role>: <content>\n"; when content is structured (text+image), only the
    text portion is rendered". *)
Definition renders_as (message : Message) (line : string) : Prop :=
  ∃ t,
    (content message = CStr t
     ∨ ∃ d, content message = CDict d ∧ d !! "text" = Some t)
    ∧ line = role message +:+ ": " +:+ t +:+ LF.

(** A turn whose content is a plain string, and a turn the transcript can
    render. *)
Definition plain_turn (message : Message) : Prop :=
  ∃ s, content message = CStr s.

Definition renderable (message : Message) : Prop :=
  ∃ line, message_line message = OK line.

(** What one node adds to the context of the final prompt. *)
Definition node_block (P : Providers) (n : NodeWithScore) : string :=
  LF +:+ get_content P (node n) +:+ LF +:+ LF.

(** Index, retriever and retained file set are present or absent together. *)
Definition configured (a : RAGAgent) : Prop :=
  (retriever a = None <-> search_index a = None)
  ∧ (lookup_files a = ∅ <-> retriever a = None).

(** The same event with another image. *)
Definition with_image (image : option string) (ev : StartEvent) : StartEvent :=
  {| ev_query_str := ev_query_str ev; ev_image := image;
     ev_lookup_files := ev_lookup_files ev; ev_streaming := ev_streaming ev |}.

(** The text of the update signals in a log, in order. *)
Fixpoint signalled (log : list Event) : string :=
  match log with
  | [] => ""
  | UpdateSignal fragment :: rest => fragment +:+ signalled rest
  | _ :: rest => signalled rest
  end.

(** A call that is not a Qt signal, and a computation that only adds such
    calls to the log. *)
Definition quiet (e : Event) : Prop :=
  match e with
  | UpdateSignal _ | FinishedSignal => False
  | _ => True
  end.

Definition adds_quiet_calls {A} (m : M A) : Prop :=
  ∀ w, ∃ new_calls, calls (m w).1 = calls w ++ new_calls ∧ Forall quiet new_calls.

(** A model whose stream raises after its two fragments. *)
Definition sample_breaking : Providers :=
  {| load_data := load_data sample;
     from_documents := from_documents sample;
     index_insert := index_insert sample;
     similarity := similarity sample;
     create_chat_completion := λ _ _ stream,
       OK (if stream
           then Stream (take 3 sample_stream) (Some (ProviderError 5))
           else Complete "What is a.txt?");
     get_content := get_content sample |}.

(** Providers whose reader, index build or index insert fail. *)
Definition sample_unreadable : Providers :=
  {| load_data := λ _ _, Raise (ProviderError 2);
     from_documents := from_documents sample;
     index_insert := index_insert sample;
     similarity := similarity sample;
     create_chat_completion := create_chat_completion sample;
     get_content := get_content sample |}.

Definition sample_no_build : Providers :=
  {| load_data := load_data sample;
     from_documents := λ _ _, Some (ProviderError 3);
     index_insert := index_insert sample;
     similarity := similarity sample;
     create_chat_completion := create_chat_completion sample;
     get_content := get_content sample |}.

(** Inserts fail on the pages of "b.txt". *)
Definition sample_no_insert_b : Providers :=
  {| load_data := load_data sample;
     from_documents := from_documents sample;
     index_insert := λ _ doc,
       if bool_decide (file_path doc = "b.txt") then Some (ProviderError 4) else None;
     similarity := similarity sample;
     create_chat_completion := create_chat_completion sample;
     get_content := get_content sample |}.

(** The world after a complete thread run over ["a.txt"]. *)
Definition after_thread : World :=
  (thread_run sample
     {| model := "llama"; prompt := "What is a.txt?"; thread_image := None;
        thread_lookup_files := {[ "a.txt" ]} |} fresh).1.

(** * The screen capture widget

    [src/llama_assistant/screen_capture_widget.py].  The widget keeps the two
    ends of the selection; its handlers are state transformers that also
    return the Qt calls they make, in order.  What Qt computes (the truth
    value of a point, the mapping to screen coordinates, the geometry of a
    rectangle) enters as a record of functions. *)

Module ScreenCapture.

Definition QPoint : Type := (Z * Z)%type.

(** [QRect(p1, p2)], before any normalisation. *)
Record QRect := mkRect {
  corner1 : QPoint;
  corner2 : QPoint
}.

Inductive MouseButton :=
| LeftButton
| RightButton
| MiddleButton.

Record QMouseEvent := mkMouse {
  button : MouseButton;
  pos : QPoint
}.

Record Qt := mkQt {
  point_bool : QPoint -> bool;          (* bool(QPoint) *)
  mapToGlobal : QPoint -> QPoint;
  normalized : QRect -> QRect;
  rect_x : QRect -> Z;
  rect_y : QRect -> Z;
  rect_width : QRect -> Z;
  rect_height : QRect -> Z;
  rect_left : QRect -> Z;
  rect_bottom : QRect -> Z
}.

Inductive Target := OcrButton | AskButton | ButtonWidget.

Inductive QtCall :=
| Update                                         (* self.update() *)
| SetWindowOpacity (opacity : Q)
| SuperShow
| SuperHide
| HideButtons                                    (* self.button_widget.hide() *)
| GrabWindow (window x y width height : Z)
| SavePixmap                                     (* pixmap.save(config.ocr_tmp_file, "PNG") *)
| DrawRect (rect : QRect)
| SuperPaintEvent
| SetGeometry (target : Target) (x y width height : Z)
| SetTranslucentBackground
| SetFramelessWindowHint
| ShowButtons.                                   (* self.button_widget.show() *)

Record Widget := mkWidget {
  start_point : option QPoint;
  end_point : option QPoint;
  region_rect : option QRect
}.

Section Handlers.

Variable qt : Qt.

(** The state [__init__] leaves, as far as the handlers read it. *)
Definition init : Widget :=
  {| start_point := None; end_point := None; region_rect := None |}.

(** [if self.start_point and self.end_point]: both set and both true; the
    result carries the two points. *)
Definition selection (w : Widget) : option (QPoint * QPoint) :=
  match start_point w, end_point w with
  | Some s, Some e => if point_bool qt s && point_bool qt e then Some (s, e) else None
  | _, _ => None
  end.

Definition show (w : Widget) : Widget * list QtCall :=
  ({| start_point := None; end_point := None; region_rect := region_rect w |},
   [Update; SetWindowOpacity (1 # 2)%Q; SuperShow]).

Definition hide (w : Widget) : Widget * list QtCall :=
  (w, [HideButtons; SuperHide]).

Definition mousePressEvent (event : QMouseEvent) (w : Widget) : Widget * list QtCall :=
  match button event with
  | LeftButton =>
      ({| start_point := Some (pos event); end_point := Some (pos event);
          region_rect := region_rect w |}, [])
  | _ => (w, [])
  end.

Definition capture_region (start_point end_point : QPoint) : list QtCall :=
  let start_global := mapToGlobal qt start_point in
  let end_global := mapToGlobal qt end_point in
  let region_rect := normalized qt (mkRect start_global end_global) in
  [ GrabWindow 0 (rect_x qt region_rect) (rect_y qt region_rect)
      (rect_width qt region_rect) (rect_height qt region_rect);
    SavePixmap ].

Definition show_buttons (w : Widget) : Widget * list QtCall :=
  match selection w with
  | Some (s, e) =>
      let rect := normalized qt (mkRect s e) in
      let button_y := (rect_bottom qt rect + 10)%Z in
      let button_width := 80%Z in
      let button_height := 30%Z in
      let spacing := 10%Z in
      (w, [ SetGeometry OcrButton 0 0 button_width button_height;
            SetGeometry AskButton (button_width + spacing) 0 button_width button_height;
            SetGeometry ButtonWidget (rect_left qt rect) button_y
              (2 * button_width + spacing) button_height;
            SetTranslucentBackground;
            SetFramelessWindowHint;
            ShowButtons ])
  | None => (w, [])
  end.

Definition mouseReleaseEvent (event : QMouseEvent) (w : Widget) : Widget * list QtCall :=
  let '(w1, calls1) :=
    match button event with
    | LeftButton =>
        let w1 := {| start_point := start_point w; end_point := Some (pos event);
                     region_rect := region_rect w |} in
        (w1, match selection w1 with
             | Some (s, e) => capture_region s e
             | None => []
             end ++ [Update])
    | _ => (w, [])
    end in
  let '(w2, calls2) := show_buttons w1 in
  (w2, calls1 ++ calls2).

Definition mouseMoveEvent (event : QMouseEvent) (w : Widget) : Widget * list QtCall :=
  match start_point w with
  | Some s =>
      if point_bool qt s
      then ({| start_point := start_point w; end_point := Some (pos event);
               region_rect := region_rect w |}, [Update])
      else (w, [])
  | None => (w, [])
  end.

Definition paintEvent (w : Widget) : Widget * list QtCall :=
  match selection w with
  | Some (s, e) =>
      let rect := normalized qt (mkRect s e) in
      ({| start_point := start_point w; end_point := end_point w;
          region_rect := Some rect |}, [DrawRect rect; SuperPaintEvent])
  | None => (w, [SuperPaintEvent])
  end.

(** What Qt can deliver to the widget, and a sequence of deliveries. *)
Inductive Input :=
| Show
| Hide
| Press (event : QMouseEvent)
| Release (event : QMouseEvent)
| Move (event : QMouseEvent)
| Paint.

Definition deliver (i : Input) (w : Widget) : Widget * list QtCall :=
  match i with
  | Show => show w
  | Hide => hide w
  | Press event => mousePressEvent event w
  | Release event => mouseReleaseEvent event w
  | Move event => mouseMoveEvent event w
  | Paint => paintEvent w
  end.

Fixpoint deliver_all (inputs : list Input) (w : Widget) : Widget * list QtCall :=
  match inputs with
  | [] => (w, [])
  | i :: rest =>
      let '(w1, calls1) := deliver i w in
      let '(w2, calls2) := deliver_all rest w1 in
      (w2, calls1 ++ calls2)
  end.

End Handlers.

(** A press of the left button. *)
Definition left_press (i : Input) : Prop :=
  ∃ p, i = Press {| button := LeftButton; pos := p |}.

(** A call that puts something on the screen or on disk: a drawn rectangle,
    a grabbed region, a saved image, the buttons. *)
Definition visible (c : QtCall) : Prop :=
  match c with
  | DrawRect _ | GrabWindow _ _ _ _ _ | SavePixmap | ShowButtons
  | SetGeometry _ _ _ _ _ => True
  | _ => False
  end.

(** A Qt in which the point (0, 0) is false, rectangles are kept as given
    and screen coordinates are widget coordinates. *)
Definition plain_qt : Qt :=
  {| point_bool := λ p, negb (bool_decide (p = (0, 0)%Z));
     mapToGlobal := λ p, p;
     normalized := λ r, r;
     rect_x := λ r, (corner1 r).1;
     rect_y := λ r, (corner1 r).2;
     rect_width := λ r, ((corner2 r).1 - (corner1 r).1 + 1)%Z;
     rect_height := λ r, ((corner2 r).2 - (corner1 r).2 + 1)%Z;
     rect_left := λ r, (corner1 r).1;
     rect_bottom := λ r, (corner2 r).2 |}.

End ScreenCapture.

(** * Properties *)

(** ** Strings *)

Lemma string_length_app (s t : string) :
  String.length (s +:+ t) = String.length s + String.length t.
Proof. induction s as [|c s IH]; simpl; [done | by rewrite IH]. Qed.

(** ** Page ordinals *)

Lemma assign_page_index_from tracker documents path :
  ordinals_of path (assign_page_index tracker documents)
  = Some <$> seq (default 0 (tracker !! path)) (chunks_of path documents).
Proof.
  unfold ordinals_of, chunks_of.
  revert tracker; induction documents as [|doc rest IH]; intros tracker; [done|].
  cbn [assign_page_index].
  rewrite !filter_cons. cbn [file_path set_page_index].
  destruct (decide (file_path doc = path)) as [->|Hne].
  - cbn. rewrite IH, lookup_insert_eq. cbn.
    by replace (default 0 (tracker !! path) + 1) with (S (default 0 (tracker !! path))) by lia.
  - rewrite IH. by rewrite lookup_insert_ne.
Qed.

Lemma assign_page_index_shape tracker documents :
  (λ d, (text d, file_path d)) <$> assign_page_index tracker documents
  = (λ d, (text d, file_path d)) <$> documents.
Proof.
  revert tracker; induction documents as [|doc rest IH]; intros tracker; [done|].
  cbn. by rewrite IH.
Qed.

Lemma NoDup_by_key {A} (f : A -> string) (g : A -> option nat) (l : list A) :
  (∀ p, NoDup (g <$> filter (λ x, f x = p) l)) ->
  NoDup ((λ x, (f x, g x)) <$> l).
Proof.
  induction l as [|x l IH]; intros H; [constructor|].
  cbn. constructor.
  - intros Hin. apply list_elem_of_fmap in Hin as (y & Heq & Hy).
    injection Heq as Hf Hg.
    specialize (H (f x)). rewrite filter_cons in H.
    destruct (decide (f x = f x)) as [_|]; [|done].
    cbn in H. apply NoDup_cons in H as [Hnot _].
    apply Hnot. rewrite Hg. apply list_elem_of_fmap. exists y. split; [done|].
    apply list_elem_of_filter. by split.
  - apply IH. intros p. specialize (H p). rewrite filter_cons in H.
    destruct (decide (f x = p)); [|done].
    cbn in H. by apply NoDup_cons in H as [_ ?].
Qed.

(** ** Reasoning about the monad *)

Lemma bind_OK {A B} (m : M A) (f : A -> M B) w w' b :
  bind m f w = (w', OK b) ->
  ∃ a w1, m w = (w1, OK a) ∧ f a w1 = (w', OK b).
Proof.
  unfold bind. destruct (m w) as [w1 [a|e]]; [eauto | discriminate].
Qed.

Lemma bind_Raise {A B} (m : M A) (f : A -> M B) w w' e :
  bind m f w = (w', Raise e) ->
  m w = (w', Raise e) ∨ ∃ a w1, m w = (w1, OK a) ∧ f a w1 = (w', Raise e).
Proof.
  unfold bind. destruct (m w) as [w1 [a|e1]]; [eauto|].
  intros [= -> ->]. by left.
Qed.

Lemma bind_step {A B} (m : M A) (f : A -> M B) w w1 a :
  m w = (w1, OK a) -> bind m f w = f a w1.
Proof. unfold bind. by intros ->. Qed.

Lemma bind_fail {A B} (m : M A) (f : A -> M B) w w1 e :
  m w = (w1, Raise e) -> bind m f w = (w1, Raise e).
Proof. unfold bind. by intros ->. Qed.

Lemma world_eta w : {| agent := agent w; calls := calls w |} = w.
Proof. by destruct w. Qed.

Ltac mred := unfold bind, ret, raise, self, update, call, lift, check; cbn.

(** ** What a step leaves alone *)

Lemma insert_documents_frame P documents w :
  index_frame w (insert_documents P documents w).1.
Proof.
  revert w; induction documents as [|doc rest IH]; intros w.
  - by repeat split.
  - cbn [insert_documents]. mred.
    destruct (index_insert P (length (calls w)) doc) as [e|]; cbn.
    + by repeat split.
    + match goal with |- index_frame _ (insert_documents _ _ ?w1).1 =>
        specialize (IH w1) end.
      destruct IH as (? & ? & ? & ? & ?). by repeat split.
Qed.

(** The loop when no insert fails: every document is appended, in order. *)
Lemma insert_documents_ok P documents w :
  (∀ i doc, documents !! i = Some doc ->
            index_insert P (length (calls w) + i) doc = None) ->
  insert_documents P documents w
  = ({| agent := match documents with
                 | [] => agent w
                 | _ => set_search_index
                          (Some (default [] (search_index (agent w)) ++ documents))
                          (agent w)
                 end;
        calls := calls w ++ (InsertDocument <$> documents) |}, OK tt).
Proof.
  revert w; induction documents as [|doc rest IH]; intros w H.
  - cbn. unfold ret. by rewrite app_nil_r, world_eta.
  - cbn [insert_documents]. mred.
    rewrite <- (Nat.add_0_r (length (calls w))), (H 0 doc eq_refl). cbn.
    rewrite IH.
    + destruct rest; cbn; by rewrite <- ?(assoc_L (++)).
    + intros i d Hi. cbn. rewrite length_app. cbn.
      replace (length (calls w) + 1 + i) with (length (calls w) + S i) by lia.
      by apply H.
Qed.

Lemma udpate_index_history P files w :
  chat_history (agent (udpate_index P files w).1) = chat_history (agent w).
Proof.
  unfold udpate_index. destruct (decide (files = ∅)); [by mred|].
  mred. destruct (load_data P (length (calls w)) files) as [documents|e]; cbn; [|done].
  destruct (search_index (agent w)) as [old|]; cbn.
  - match goal with |- context [insert_documents P ?d ?w1] =>
      pose proof (insert_documents_frame P d w1) as Hf;
      destruct (insert_documents P d w1) as [w2 [[]|e]] end; cbn in *;
    by destruct Hf as (_ & _ & -> & _).
  - match goal with |- context [from_documents P ?t ?d] =>
      destruct (from_documents P t d) end; by cbn.
Qed.

Lemma setup_history P ev w :
  chat_history (agent (setup P ev w).1) = chat_history (agent w).
Proof.
  unfold setup. mred.
  destruct (decide (ev_lookup_files ev ≠ lookup_files (agent w))); cbn; [|done].
  pose proof (udpate_index_history P (ev_lookup_files ev) w) as Hu.
  destruct (udpate_index P (ev_lookup_files ev) w) as [w1 [[]|e]]; by cbn in *.
Qed.

(** Condensation and retrieval only add to the log. *)
Lemma condense_agent P ctx w :
  agent (condense_history_to_query P ctx w).1 = agent w.
Proof.
  unfold condense_history_to_query. mred.
  destruct (_ || _); [|done].
  destruct (convert_message_list_to_str _) as [s|e]; cbn; [|done].
  destruct (create_chat_completion P _ _ _) as [[s'|c]|e]; by cbn.
Qed.

Lemma retrieve_agent P query w :
  agent (retrieve P query w).1 = agent w.
Proof.
  unfold retrieve. mred.
  destruct (retriever (agent w)) as [r|]; cbn; [|done].
  destruct (aretrieve P _ _ _ _) as [nodes|e]; by cbn.
Qed.

(** The last step: the history grows exactly when the model call returns. *)
Lemma llm_response_cases P ctx nodes w :
  let messages :=
    chat_history (agent w)
      ++ [formated_message (_prepare_query_with_context P (query_str ctx) nodes)
            (image ctx)] in
  let logged :=
    calls w ++ [ChatCompletion messages (streaming ctx)] in
  llm_response P ctx nodes w
  = match create_chat_completion P (length (calls w)) messages (streaming ctx) with
    | OK response =>
        ({| agent := set_chat_history
                       (chat_history (agent w)
                          ++ [ {| role := "user"; content := CStr (query_str ctx) |} ])
                       (agent w);
            calls := logged |}, OK response)
    | Raise e => ({| agent := agent w; calls := logged |}, Raise e)
    end.
Proof.
  unfold llm_response. mred.
  by destruct (create_chat_completion P _ _ _).
Qed.

(** ** The workflow, step by step *)

Lemma setup_context P ev w w1 ctx :
  setup P ev w = (w1, OK ctx) ->
  ctx = {| query_str := ev_query_str ev; image := ev_image ev;
           streaming := ev_streaming ev |}.
Proof.
  unfold setup. mred.
  destruct (decide _); cbn.
  - destruct (udpate_index P _ w) as [w2 [[]|e]]; cbn; congruence.
  - congruence.
Qed.

Lemma run_OK P ev w w' response :
  run P ev w = (w', OK response) ->
  ∃ w1 ctx w2 condensed w3 nodes,
    setup P ev w = (w1, OK ctx)
    ∧ condense_history_to_query P ctx w1 = (w2, OK condensed)
    ∧ retrieve P condensed w2 = (w3, OK nodes)
    ∧ llm_response P ctx nodes w3 = (w', OK response).
Proof.
  unfold run. intros H.
  apply bind_OK in H as (ctx & w1 & H1 & H).
  apply bind_OK in H as (condensed & w2 & H2 & H).
  apply bind_OK in H as (nodes & w3 & H3 & H).
  by exists w1, ctx, w2, condensed, w3, nodes.
Qed.

Lemma run_Raise P ev w w' e :
  run P ev w = (w', Raise e) ->
  setup P ev w = (w', Raise e)
  ∨ ∃ w1 ctx, setup P ev w = (w1, OK ctx) ∧
      (condense_history_to_query P ctx w1 = (w', Raise e)
       ∨ ∃ w2 condensed,
           condense_history_to_query P ctx w1 = (w2, OK condensed) ∧
           (retrieve P condensed w2 = (w', Raise e)
            ∨ ∃ w3 nodes, retrieve P condensed w2 = (w3, OK nodes) ∧
                llm_response P ctx nodes w3 = (w', Raise e))).
Proof.
  unfold run. intros H.
  apply bind_Raise in H as [H|(ctx & w1 & H1 & H)]; [by left|].
  right. exists w1, ctx. split; [done|].
  apply bind_Raise in H as [H|(condensed & w2 & H2 & H)]; [by left|].
  right. exists w2, condensed. split; [done|].
  apply bind_Raise in H as [H|(nodes & w3 & H3 & H)]; [by left|].
  right. by exists w3, nodes.
Qed.

(** The history when the last step is reached is the one the run started
    with. *)
Lemma history_before_response P ev w w1 ctx w2 condensed w3 nodes :
  setup P ev w = (w1, OK ctx) ->
  condense_history_to_query P ctx w1 = (w2, OK condensed) ->
  retrieve P condensed w2 = (w3, OK nodes) ->
  chat_history (agent w3) = chat_history (agent w).
Proof.
  intros H1 H2 H3.
  pose proof (setup_history P ev w) as E1. rewrite H1 in E1.
  pose proof (condense_agent P ctx w1) as E2. rewrite H2 in E2.
  pose proof (retrieve_agent P condensed w2) as E3. rewrite H3 in E3.
  cbn in *. by rewrite E3, E2.
Qed.

Lemma run_history_OK P ev w w' response :
  run P ev w = (w', OK response) ->
  chat_history (agent w')
  = chat_history (agent w)
      ++ [ {| role := "user"; content := CStr (ev_query_str ev) |} ].
Proof.
  intros H. apply run_OK in H as (w1 & ctx & w2 & cq & w3 & nodes & H1 & H2 & H3 & H4).
  pose proof (history_before_response _ _ _ _ _ _ _ _ _ H1 H2 H3) as Hh.
  apply setup_context in H1 as ->.
  rewrite llm_response_cases in H4. cbn in H4.
  destruct (create_chat_completion P _ _ _); [|discriminate].
  injection H4 as <- _. cbn. by rewrite Hh.
Qed.

Lemma run_history_Raise P ev w w' e :
  run P ev w = (w', Raise e) ->
  chat_history (agent w') = chat_history (agent w).
Proof.
  intros H.
  apply run_Raise in H
    as [H|(w1 & ctx & H1 & [H|(w2 & cq & H2 & [H|(w3 & nodes & H3 & H)])])].
  - pose proof (setup_history P ev w) as E. by rewrite H in E.
  - pose proof (setup_history P ev w) as E1. rewrite H1 in E1.
    pose proof (condense_agent P ctx w1) as E2. rewrite H in E2.
    cbn in *. by rewrite E2.
  - pose proof (setup_history P ev w) as E1. rewrite H1 in E1.
    pose proof (condense_agent P ctx w1) as E2. rewrite H2 in E2.
    pose proof (retrieve_agent P cq w2) as E3. rewrite H in E3.
    cbn in *. by rewrite E3, E2.
  - pose proof (history_before_response _ _ _ _ _ _ _ _ _ H1 H2 H3) as Hh.
    rewrite llm_response_cases in H.
    destruct (create_chat_completion P _ _ _); [discriminate|].
    by injection H as <- _.
Qed.

(** ** Neither rewritten text is the query *)

Lemma condensed_format_differs history_summary query_str :
  condensed_format history_summary query_str ≠ query_str.
Proof.
  intros H. apply (f_equal String.length) in H.
  unfold condensed_format in H. rewrite !string_length_app in H.
  cbn in H. lia.
Qed.

Lemma context_prompt_differs node_context query_str :
  CONTEXT_PROMPT_TEMPLATE node_context query_str ≠ query_str.
Proof.
  intros H. apply (f_equal String.length) in H.
  unfold CONTEXT_PROMPT_TEMPLATE in H. rewrite !string_length_app in H.
  cbn in H. lia.
Qed.

Lemma prepare_query_differs P query_str nodes :
  nodes ≠ [] -> _prepare_query_with_context P query_str nodes ≠ query_str.
Proof.
  destruct nodes as [|n rest]; [done|]. intros _.
  apply context_prompt_differs.
Qed.

(** ** Index refresh *)

Lemma set_search_index_same a old :
  search_index a = Some old -> set_search_index (Some old) a = a.
Proof. destruct a; cbn. by intros ->. Qed.

Lemma udpate_index_ok P files w documents :
  files ≠ ∅ ->
  load_data P (length (calls w)) files = OK documents ->
  indexing_ok P (S (length (calls w))) (search_index (agent w))
    (assign_page_index ∅ documents) ->
  udpate_index P files w
  = ({| agent :=
          set_retriever (Some {| similarity_top_k := k (agent w) |})
            (set_search_index
               (Some (default [] (search_index (agent w))
                        ++ assign_page_index ∅ documents))
               (agent w));
        calls :=
          calls w ++ [LoadData files]
            ++ index_calls (search_index (agent w)) (assign_page_index ∅ documents)
            ++ [AsRetriever (k (agent w))] |}, OK tt).
Proof.
  intros Hne Hload Hok. unfold udpate_index.
  destruct (decide (files = ∅)); [done|].
  mred. rewrite Hload. cbn.
  set (stamped := assign_page_index ∅ documents) in *.
  destruct (search_index (agent w)) as [old|] eqn:Hidx; cbn in Hok |- *.
  - rewrite insert_documents_ok.
    + cbn. rewrite Hidx. cbn. rewrite <- !(assoc_L (++)). cbn.
      destruct stamped; cbn; [|done].
      rewrite app_nil_r. by rewrite (set_search_index_same _ old).
    + intros i doc Hi. cbn. rewrite length_app. cbn.
      replace (length (calls w) + 1 + i) with (S (length (calls w)) + i) by lia.
      by apply Hok.
  - rewrite length_app. cbn.
    replace (length (calls w) + 1) with (S (length (calls w))) by lia.
    rewrite Hok. cbn. by rewrite <- !(assoc_L (++)).
Qed.

(** ** The streaming consumer *)

Lemma collect_agent full_response_str output w :
  agent (collect full_response_str output w).1 = agent w.
Proof.
  revert full_response_str w.
  induction output as [|[delta|e] rest IH]; intros acc w; [done| |done].
  cbn [collect].
  destruct (delta_role delta), (delta_content delta) as [[fragment|]|];
    try apply IH; [|done].
  mred. by rewrite IH.
Qed.

(** When the loop completes, it has signalled every kept fragment, in
    order, and returns them put end to end. *)
Lemma collect_OK full_response_str output w w' out :
  collect full_response_str output w = (w', OK out) ->
  w' = {| agent := agent w; calls := calls w ++ (UpdateSignal <$> fragments output) |}
  ∧ out = foldl String.append full_response_str (fragments output).
Proof.
  revert full_response_str w.
  induction output as [|[delta|e] rest IH]; intros acc w; [| |done].
  - cbn. unfold ret. intros [= <- <-]. by rewrite app_nil_r, world_eta.
  - cbn [collect fragments].
    destruct (delta_role delta), (delta_content delta) as [[fragment|]|];
      try apply IH; [|done].
    mred. intros H. apply IH in H as [-> ->]. cbn.
    by rewrite <- (assoc_L (++)).
Qed.

Lemma thread_run_OK P th w w' out :
  thread_run P th w = (w', OK out) ->
  ∃ w1 chunks,
    run P {| ev_query_str := prompt th; ev_image := thread_image th;
             ev_lookup_files := thread_lookup_files th; ev_streaming := true |} w
      = (w1, OK (Stream chunks None))
    ∧ out = foldl String.append "" (fragments chunks)
    ∧ agent w'
      = set_chat_history
          (chat_history (agent w1) ++ [ {| role := "assistant"; content := CStr out |} ])
          (agent w1)
    ∧ calls w' = calls w1 ++ (UpdateSignal <$> fragments chunks) ++ [FinishedSignal].
Proof.
  unfold thread_run, chat_completion. intros H.
  apply bind_OK in H as (output & w1 & Hrun & H).
  destruct output as [answer|chunks fault]; [discriminate|].
  apply bind_OK in H as (full & w2 & Hcollect & H).
  apply collect_OK in Hcollect as [-> ->].
  destruct fault as [e|]; [discriminate|].
  exists w1, chunks. split; [done|].
  unfold update_chat_history in H. revert H. mred.
  intros [= <- <-]. cbn. by rewrite <- (assoc_L (++)).
Qed.

(** ** Settings that no method changes *)

Lemma settings_refl a : settings a a.
Proof. by repeat split. Qed.

Lemma settings_trans a b c : settings a b -> settings b c -> settings a c.
Proof.
  intros (? & ? & ?) (? & ? & ?). repeat split; [congruence..|auto].
Qed.

Lemma udpate_index_settings P files w :
  settings (agent w) (agent (udpate_index P files w).1).
Proof.
  unfold udpate_index. destruct (decide (files = ∅)).
  { mred. by repeat split. }
  mred. destruct (load_data P (length (calls w)) files) as [documents|e]; cbn;
    [|apply settings_refl].
  destruct (search_index (agent w)) as [old|]; cbn.
  - match goal with |- context [insert_documents P ?d ?w1] =>
      pose proof (insert_documents_frame P d w1) as Hf;
      destruct (insert_documents P d w1) as [w2 [[]|e]] end; cbn in *;
    destruct Hf as (Hk & Hr & _ & _ & Hc).
    + repeat split; [done..|]. intros _ r [= <-]. by cbn.
    + repeat split; [done..|]. intros Hu r Hr'. rewrite Hk. apply Hu.
      cbn in Hr. congruence.
  - match goal with |- context [from_documents P ?t ?d] =>
      destruct (from_documents P t d) end; cbn.
    + apply settings_refl.
    + repeat split. intros _ r [= <-]. by cbn.
Qed.

Lemma setup_settings P ev w :
  settings (agent w) (agent (setup P ev w).1).
Proof.
  unfold setup. mred.
  destruct (decide _); cbn; [|by repeat split].
  pose proof (udpate_index_settings P (ev_lookup_files ev) w) as Hu.
  destruct (udpate_index P (ev_lookup_files ev) w) as [w1 [[]|e]]; cbn in *; [|done].
  destruct Hu as (? & ? & ?). by repeat split.
Qed.

Lemma llm_response_settings P ctx nodes w :
  settings (agent w) (agent (llm_response P ctx nodes w).1).
Proof.
  rewrite llm_response_cases. cbn.
  destruct (create_chat_completion P _ _ _); by repeat split.
Qed.

Lemma run_settings P ev w :
  settings (agent w) (agent (run P ev w).1).
Proof.
  unfold run.
  pose proof (setup_settings P ev w) as H1.
  destruct (setup P ev w) as [w1 [ctx|e]] eqn:E1;
    [rewrite (bind_step _ _ _ _ _ E1) | by rewrite (bind_fail _ _ _ _ _ E1)].
  pose proof (condense_agent P ctx w1) as H2.
  destruct (condense_history_to_query P ctx w1) as [w2 [cq|e]] eqn:E2;
    [rewrite (bind_step _ _ _ _ _ E2) | rewrite (bind_fail _ _ _ _ _ E2)];
    cbn [fst] in *; [|by rewrite H2].
  pose proof (retrieve_agent P cq w2) as H3.
  destruct (retrieve P cq w2) as [w3 [nodes|e]] eqn:E3;
    [rewrite (bind_step _ _ _ _ _ E3) | rewrite (bind_fail _ _ _ _ _ E3)];
    cbn [fst] in *; [|by rewrite H3, H2].
  eapply settings_trans; [exact H1|].
  replace (agent w1) with (agent w3) by congruence.
  apply llm_response_settings.
Qed.

Lemma thread_run_settings P th w :
  settings (agent w) (agent (thread_run P th w).1).
Proof.
  unfold thread_run, chat_completion.
  match goal with |- context [run P ?ev] =>
    pose proof (run_settings P ev w) as H1;
    destruct (run P ev w) as [w1 [[answer|chunks fault]|e]] eqn:E1 end;
    [rewrite (bind_step _ _ _ _ _ E1) .. | by rewrite (bind_fail _ _ _ _ _ E1)];
    cbn [fst] in *; [done|].
  pose proof (collect_agent "" chunks w1) as Hc.
  destruct (collect "" chunks w1) as [w2 [full|e]] eqn:E2;
    [rewrite (bind_step _ _ _ _ _ E2) | rewrite (bind_fail _ _ _ _ _ E2)];
    cbn [fst] in *; [|by rewrite Hc].
  destruct fault as [e|]; unfold update_chat_history; mred; rewrite Hc;
    [done|].
  destruct H1 as (? & ? & ?). by repeat split.
Qed.

Lemma reachable_settings P w :
  reachable P w ->
  k (agent w) = 3 ∧ similarity_cutoff (agent w) = (3 # 10)%Q
  ∧ retriever_uses_k (agent w).
Proof.
  induction 1 as [|ev w _ (Hk & Hc & Hu)|th w _ (Hk & Hc & Hu)].
  - repeat split. by intros r.
  - destruct (run_settings P ev w) as (-> & -> & ?). auto.
  - destruct (thread_run_settings P th w) as (-> & -> & ?). auto.
Qed.

(** ** An empty retained set means no retriever *)

Lemma udpate_index_retriever P files w :
  lookup_files (agent (udpate_index P files w).1) = lookup_files (agent w)
  ∧ match (udpate_index P files w).2 with
    | OK _ => files = ∅ -> retriever (agent (udpate_index P files w).1) = None
    | Raise _ => retriever (agent (udpate_index P files w).1) = retriever (agent w)
    end.
Proof.
  unfold udpate_index. destruct (decide (files = ∅)); [by mred|].
  mred. destruct (load_data P (length (calls w)) files) as [documents|e]; cbn; [|done].
  destruct (search_index (agent w)) as [old|]; cbn.
  - match goal with |- context [insert_documents P ?d ?w1] =>
      pose proof (insert_documents_frame P d w1) as Hf;
      destruct (insert_documents P d w1) as [w2 [[]|e]] end; cbn in *;
    by destruct Hf as (_ & ? & _ & ? & _).
  - match goal with |- context [from_documents P ?t ?d] =>
      destruct (from_documents P t d) end; by cbn.
Qed.

Lemma setup_no_files P ev w :
  no_files_no_retriever (agent w) ->
  no_files_no_retriever (agent (setup P ev w).1).
Proof.
  intros Hinv. unfold setup. mred.
  destruct (decide (ev_lookup_files ev ≠ lookup_files (agent w))) as [Hd|Hs]; cbn.
  - destruct (udpate_index_retriever P (ev_lookup_files ev) w) as [Hl Hr].
    destruct (udpate_index P (ev_lookup_files ev) w) as [w1 [[]|e]]; cbn in *.
    + exact Hr.
    + intros Hl'. rewrite Hr. apply Hinv. congruence.
  - intros Hl. cbn in Hl. apply Hinv.
    destruct (decide (ev_lookup_files ev = lookup_files (agent w))); [congruence|done].
Qed.

Lemma setup_no_files_ok P ev w :
  ev_lookup_files ev = ∅ ->
  no_files_no_retriever (agent w) ->
  ∃ w1,
    setup P ev w
    = (w1, OK {| query_str := ev_query_str ev; image := ev_image ev;
                 streaming := ev_streaming ev |})
    ∧ retriever (agent w1) = None
    ∧ chat_history (agent w1) = chat_history (agent w).
Proof.
  intros Hempty Hinv. unfold setup. mred. rewrite Hempty.
  destruct (decide (∅ ≠ lookup_files (agent w))) as [Hd|Hs]; cbn.
  - unfold udpate_index. destruct (decide (∅ = ∅)); [|done]. mred.
    eexists. by repeat split.
  - eexists. repeat split. cbn. apply Hinv.
    destruct (decide (∅ = lookup_files (agent w))); [congruence|done].
Qed.

(** A run changes the agent as its setup does, and the history besides. *)
Lemma run_agent P ev w :
  ∃ history,
    agent (run P ev w).1 = set_chat_history history (agent (setup P ev w).1).
Proof.
  assert (Hid : ∀ a, a = set_chat_history (chat_history a) a) by (by intros []).
  unfold run.
  destruct (setup P ev w) as [w1 [ctx|e]] eqn:E1;
    [rewrite (bind_step _ _ _ _ _ E1) | rewrite (bind_fail _ _ _ _ _ E1)];
    cbn [fst]; [|by eexists].
  pose proof (condense_agent P ctx w1) as H2.
  destruct (condense_history_to_query P ctx w1) as [w2 [cq|e]] eqn:E2;
    [rewrite (bind_step _ _ _ _ _ E2) | rewrite (bind_fail _ _ _ _ _ E2)];
    cbn [fst] in *; [|rewrite H2; by eexists].
  pose proof (retrieve_agent P cq w2) as H3.
  destruct (retrieve P cq w2) as [w3 [nodes|e]] eqn:E3;
    [rewrite (bind_step _ _ _ _ _ E3) | rewrite (bind_fail _ _ _ _ _ E3)];
    cbn [fst] in *; [|rewrite H3, H2; by eexists].
  rewrite llm_response_cases. cbn.
  destruct (create_chat_completion P _ _ _); cbn; rewrite H3, H2; by eexists.
Qed.

Lemma thread_run_agent P th w :
  ∃ history,
    agent (thread_run P th w).1
    = set_chat_history history
        (agent (setup P {| ev_query_str := prompt th; ev_image := thread_image th;
                           ev_lookup_files := thread_lookup_files th;
                           ev_streaming := true |} w).1).
Proof.
  unfold thread_run, chat_completion.
  match goal with |- context [run P ?ev] =>
    destruct (run_agent P ev w) as [h Hh];
    destruct (run P ev w) as [w1 [[answer|chunks fault]|e]] eqn:E1 end;
    [rewrite (bind_step _ _ _ _ _ E1) .. | rewrite (bind_fail _ _ _ _ _ E1)];
    cbn [fst] in *; [by eexists| |by eexists].
  pose proof (collect_agent "" chunks w1) as Hc.
  destruct (collect "" chunks w1) as [w2 [full|e]] eqn:E2;
    [rewrite (bind_step _ _ _ _ _ E2) | rewrite (bind_fail _ _ _ _ _ E2)];
    cbn [fst] in *; [|rewrite Hc, Hh; by eexists].
  destruct fault as [e|]; unfold update_chat_history; mred; rewrite Hc, Hh;
    by eexists.
Qed.

Lemma reachable_no_files P w :
  reachable P w -> no_files_no_retriever (agent w).
Proof.
  induction 1 as [|ev w _ IH|th w _ IH].
  - by intros _.
  - destruct (run_agent P ev w) as [h ->]. by apply (setup_no_files P ev w).
  - destruct (thread_run_agent P th w) as [h ->].
    by apply (setup_no_files P _ w).
Qed.

(** ** Condensation, retrieval and the image *)

Lemma fast_path_condition (a : RAGAgent) :
  bool_decide (0 < length (chat_history a)) || bool_decide (retriever a ≠ None) = false
  <-> chat_history a = [] ∧ retriever a = None.
Proof.
  rewrite orb_false_iff, !bool_decide_eq_false. split.
  - intros [Hh Hr]. split.
    + destruct (chat_history a); [done|]. cbn in Hh. lia.
    + by destruct (retriever a); [destruct Hr|].
  - intros [-> ->]. split; [cbn; lia | by intros H; apply H].
Qed.

Lemma postprocess_nodes_cutoff cutoff nodes :
  Forall (at_least cutoff) (postprocess_nodes cutoff nodes).
Proof.
  unfold postprocess_nodes. apply Forall_forall. intros n Hn.
  apply list_elem_of_In, filter_In in Hn as [_ Hn]. unfold below, at_least in *.
  apply Qle_bool_iff. by destruct (Qle_bool cutoff (score n)).
Qed.

Lemma postprocess_nodes_length cutoff nodes :
  length (postprocess_nodes cutoff nodes) ≤ length nodes.
Proof.
  unfold postprocess_nodes. induction nodes as [|n rest IH]; cbn; [done|].
  destruct (negb (below cutoff n)); cbn; lia.
Qed.

Lemma setup_ignores_image P ev w w1 ctx :
  setup P ev w = (w1, OK ctx) ->
  setup P (without_image ev) w
  = (w1, OK {| query_str := ev_query_str ev; image := None;
               streaming := ev_streaming ev |}).
Proof.
  unfold setup. mred.
  destruct (decide _); cbn.
  - destruct (udpate_index P _ w) as [w2 [[]|e]]; cbn; congruence.
  - congruence.
Qed.

Lemma condense_reads_query_only P ctx ctx' :
  query_str ctx' = query_str ctx ->
  condense_history_to_query P ctx' = condense_history_to_query P ctx.
Proof. unfold condense_history_to_query. by intros ->. Qed.

(** ** Appending strings; the transcript and the prompt spelled out *)

Lemma string_app_assoc (s t u : string) : (s +:+ t) +:+ u = s +:+ (t +:+ u).
Proof.
  induction s as [|c s IH]; [done|].
  change (String c ((s +:+ t) +:+ u) = String c (s +:+ (t +:+ u))). by f_equal.
Qed.

Lemma string_app_nil_r (s : string) : s +:+ "" = s.
Proof.
  induction s as [|c s IH]; [done|].
  change (String c (s +:+ "") = String c s). by f_equal.
Qed.

Lemma string_app_inv_tail (s t u : string) : s +:+ u = t +:+ u -> s = t.
Proof.
  revert t; induction s as [|c s IH]; intros [|d t] H.
  - done.
  - apply (f_equal String.length) in H.
    rewrite !string_length_app in H. simpl in H. lia.
  - apply (f_equal String.length) in H.
    rewrite !string_length_app in H. simpl in H. lia.
  - change (String c (s +:+ u) = String d (t +:+ u)) in H.
    injection H as -> H. f_equal. by apply IH.
Qed.

Lemma convert_from_acc acc messages :
  convert_from acc messages
  = match convert_message_list_to_str messages with
    | OK transcript => OK (acc +:+ transcript)
    | Raise e => Raise e
    end.
Proof.
  unfold convert_message_list_to_str.
  revert acc; induction messages as [|m rest IH]; intros acc; cbn.
  - by rewrite string_app_nil_r.
  - destruct (message_line m) as [line|e]; [|done].
    change ("" +:+ line) with line.
    rewrite IH, (IH line).
    destruct (convert_from "" rest); [|done]. by rewrite string_app_assoc.
Qed.

Lemma convert_cons m rest :
  convert_message_list_to_str (m :: rest)
  = match message_line m with
    | OK line =>
        match convert_message_list_to_str rest with
        | OK transcript => OK (line +:+ transcript)
        | Raise e => Raise e
        end
    | Raise e => Raise e
    end.
Proof.
  unfold convert_message_list_to_str at 1. cbn.
  destruct (message_line m) as [line|e]; [|done].
  change ("" +:+ line) with line. apply convert_from_acc.
Qed.

Lemma renders_as_transcript history lines :
  Forall2 renders_as history lines ->
  convert_message_list_to_str history = OK (foldr String.append "" lines).
Proof.
  induction 1 as [|m line rest lines (t & Ht & ->) _ IH]; [done|].
  rewrite convert_cons, IH. unfold message_line.
  destruct Ht as [->|(d & -> & ->)]; reflexivity.
Qed.

Lemma node_context_from_texts P acc nodes :
  node_context_from P acc nodes
  = acc +:+ foldr (λ n rest, LF +:+ get_content P (node n) +:+ LF +:+ LF +:+ rest)
              "" nodes.
Proof.
  revert acc; induction nodes as [|n rest IH]; intros acc; cbn.
  - by rewrite string_app_nil_r.
  - rewrite IH. by rewrite !string_app_assoc.
Qed.

(** The message that ends the last model call, spelled out. *)
Lemma formated_message_text P query_str nodes image :
  formated_message (_prepare_query_with_context P query_str nodes) image
  = let node_texts :=
      foldr (λ n rest, LF +:+ get_content P (node n) +:+ LF +:+ LF +:+ rest)
        "" nodes in
    let text :=
      match nodes with
      | [] => query_str
      | _ :: _ =>
          "Information that might help:" +:+ LF +:+
          "-----" +:+ LF +:+
          node_texts +:+ LF +:+
          "-----" +:+ LF +:+
          "Please write a response to the following question, using the above information if relevant:" +:+ LF +:+
          query_str +:+ LF
      end in
    match image with
    | None | Some "" => {| role := "user"; content := CStr text |}
    | Some url =>
        {| role := "user"; content := CParts [TextPart text; ImageUrlPart url] |}
    end.
Proof.
  cbn zeta.
  assert (Htext :
    _prepare_query_with_context P query_str nodes
    = match nodes with
      | [] => query_str
      | _ :: _ =>
          "Information that might help:" +:+ LF +:+
          "-----" +:+ LF +:+
          foldr (λ n rest, LF +:+ get_content P (node n) +:+ LF +:+ LF +:+ rest)
            "" nodes +:+ LF +:+
          "-----" +:+ LF +:+
          "Please write a response to the following question, using the above information if relevant:" +:+ LF +:+
          query_str +:+ LF
      end).
  { destruct nodes as [|n rest]; [done|].
    unfold _prepare_query_with_context. by rewrite node_context_from_texts. }
  rewrite Htext. unfold formated_message.
  by destruct image as [[|c url]|].
Qed.

(** The update signals of the loop are the first of the fragments of the
    stream, in order, whether or not the loop completes. *)
Lemma collect_prefix full_response_str output w :
  ∃ shown,
    shown `prefix_of` fragments output
    ∧ calls (collect full_response_str output w).1
      = calls w ++ (UpdateSignal <$> shown).
Proof.
  revert full_response_str w.
  induction output as [|[delta|e] rest IH]; intros acc w.
  - exists []. split; [done|]. cbn. by rewrite app_nil_r.
  - cbn [collect fragments].
    destruct (delta_role delta), (delta_content delta) as [[fragment|]|];
      try apply IH.
    + mred. destruct (IH (acc +:+ fragment)
                        {| agent := agent w;
                           calls := calls w ++ [UpdateSignal fragment] |})
        as (shown & Hp & Hs).
      exists (fragment :: shown). split; [by apply prefix_cons|].
      rewrite Hs. cbn. by rewrite <- (assoc_L (++)).
    + exists []. split; [apply prefix_nil|]. cbn. by rewrite app_nil_r.
  - exists []. split; [apply prefix_nil|]. cbn. by rewrite app_nil_r.
Qed.

(** * The claims *)

(** ** C1. Setup with a changed, non-empty file set *)

(** C1, as stated, fails: after a run over {"a.txt"}, a setup with
    {"a.txt", "b.txt"} (a different, non-empty set) does not clear and
    rebuild. *)
Lemma setup_grown_set_does_not_rebuild :
  let ev := ask "And b.txt?" {[ "a.txt"; "b.txt" ]} in
  ev_lookup_files ev ≠ lookup_files (agent after_a)
  ∧ ev_lookup_files ev ≠ ∅
  ∧ ¬ clears_and_rebuilds sample ev after_a.
Proof.
  cbn zeta. split; [|split].
  - intros H. by vm_compute in H.
  - intros H. by vm_compute in H.
  - intros (new_calls & documents & Hcalls & Hclear & _).
    apply (f_equal (drop (length (calls after_a)))) in Hcalls.
    rewrite drop_app_length in Hcalls.
    vm_compute in Hcalls. subst new_calls.
    repeat (apply elem_of_cons in Hclear as [Hclear|Hclear]; [discriminate|]).
    by apply elem_of_nil in Hclear.
Qed.

(** What that setup does instead: it reads both files and inserts all four
    pages into the index that already holds the two pages of "a.txt". *)
Example grown_set_trace :
  let ev := ask "And b.txt?" {[ "a.txt"; "b.txt" ]} in
  let page n path text :=
    {| text := text; file_path := path; page_index := Some n |} in
  let a0 := page 0 "a.txt" "first page of a.txt" in
  let a1 := page 1 "a.txt" "second page of a.txt" in
  let b0 := page 0 "b.txt" "first page of b.txt" in
  let b1 := page 1 "b.txt" "second page of b.txt" in
  drop (length (calls after_a)) (calls (setup sample ev after_a).1)
  = [ LoadData {[ "a.txt"; "b.txt" ]};
      InsertDocument a0; InsertDocument a1; InsertDocument b0; InsertDocument b1;
      AsRetriever 3 ]
  ∧ search_index (agent after_a) = Some [a0; a1]
  ∧ search_index (agent (setup sample ev after_a).1) = Some [a0; a1; a0; a1; b0; b1].
Proof. cbn zeta. repeat split; vm_compute; reflexivity. Qed.

(** C1 (amended): when the submitted file set differs from the retained one
    and is not empty, and reading and indexing succeed, setup reads every file
    of the new set, stamps the documents, and hands all of them to the index
    without clearing it: one [from_documents] when there is no index, one
    insert per document into the existing index otherwise, whose earlier
    entries stay.  It then makes a retriever with top-k [k] and retains the new
    set. *)
Theorem setup_changed_set_feeds_index P ev w documents :
  ev_lookup_files ev ≠ lookup_files (agent w) ->
  ev_lookup_files ev ≠ ∅ ->
  load_data P (length (calls w)) (ev_lookup_files ev) = OK documents ->
  indexing_ok P (S (length (calls w))) (search_index (agent w))
    (assign_page_index ∅ documents) ->
  let stamped := assign_page_index ∅ documents in
  let new_calls :=
    [LoadData (ev_lookup_files ev)]
      ++ index_calls (search_index (agent w)) stamped
      ++ [AsRetriever (k (agent w))] in
  ∃ w' ctx,
    setup P ev w = (w', OK ctx)
    ∧ calls w' = calls w ++ new_calls
    ∧ (ClearIndex ∉ new_calls)
    ∧ search_index (agent w')
      = Some (default [] (search_index (agent w)) ++ stamped)
    ∧ retriever (agent w') = Some {| similarity_top_k := k (agent w) |}
    ∧ lookup_files (agent w') = ev_lookup_files ev.
Proof.
  intros Hdiff Hne Hload Hok stamped new_calls.
  unfold setup. mred.
  destruct (decide (ev_lookup_files ev ≠ lookup_files (agent w))); [|done].
  rewrite (udpate_index_ok P _ w documents Hne Hload Hok). cbn.
  eexists _, _. split; [reflexivity|]. cbn.
  repeat split.
  subst new_calls. intros Hin.
  apply elem_of_cons in Hin as [Hin|Hin]; [discriminate|].
  apply elem_of_app in Hin as [Hin|Hin].
  - unfold index_calls in Hin. destruct (search_index (agent w)).
    + apply list_elem_of_fmap in Hin as (d & Hd & _). discriminate.
    + apply elem_of_cons in Hin as [Hin|Hin]; [discriminate|].
      by apply elem_of_nil in Hin.
  - apply elem_of_cons in Hin as [Hin|Hin]; [discriminate|].
    by apply elem_of_nil in Hin.
Qed.

Lemma setup_changed_set_feeds_index_witness :
  let ev := ask "And b.txt?" {[ "a.txt"; "b.txt" ]} in
  let documents := flat_map two_pages (elements (ev_lookup_files ev)) in
  let stamped := assign_page_index ∅ documents in
  ∃ w' ctx,
    setup sample ev after_a = (w', OK ctx)
    ∧ calls w'
      = calls after_a
          ++ [LoadData (ev_lookup_files ev)]
          ++ index_calls (search_index (agent after_a)) stamped
          ++ [AsRetriever (k (agent after_a))]
    ∧ (ClearIndex ∉
        [LoadData (ev_lookup_files ev)]
          ++ index_calls (search_index (agent after_a)) stamped
          ++ [AsRetriever (k (agent after_a))])
    ∧ search_index (agent w')
      = Some (default [] (search_index (agent after_a)) ++ stamped)
    ∧ retriever (agent w') = Some {| similarity_top_k := k (agent after_a) |}
    ∧ lookup_files (agent w') = ev_lookup_files ev.
Proof.
  cbn zeta.
  apply (setup_changed_set_feeds_index sample
           (ask "And b.txt?" {[ "a.txt"; "b.txt" ]}) after_a).
  - intros H. by vm_compute in H.
  - intros H. by vm_compute in H.
  - reflexivity.
  - vm_compute. intros. reflexivity.
Defined.

(** ** C2. What the history holds *)

(** C2: when [ProcessingThread.run] completes, the history is the one it
    started with followed by two turns: the user turn, whose content is the
    prompt string exactly as submitted, and the assistant turn, whose content
    is the text collected from the stream the workflow returned.  The stored
    prompt is neither a condensed query (whatever the rewrite) nor a
    context-augmented prompt (whatever the nodes, if there are any). *)
Theorem history_holds_query_and_answer P th w w' out :
  thread_run P th w = (w', OK out) ->
  chat_history (agent w')
  = chat_history (agent w)
      ++ [ {| role := "user"; content := CStr (prompt th) |};
           {| role := "assistant"; content := CStr out |} ]
  ∧ (∃ w1 chunks,
       run P {| ev_query_str := prompt th; ev_image := thread_image th;
                ev_lookup_files := thread_lookup_files th; ev_streaming := true |} w
         = (w1, OK (Stream chunks None))
       ∧ chat_history (agent w1)
         = chat_history (agent w)
             ++ [ {| role := "user"; content := CStr (prompt th) |} ]
       ∧ out = foldl String.append "" (fragments chunks))
  ∧ (∀ history_summary, condensed_format history_summary (prompt th) ≠ prompt th)
  ∧ (∀ nodes, nodes ≠ [] ->
              _prepare_query_with_context P (prompt th) nodes ≠ prompt th).
Proof.
  intros H.
  apply thread_run_OK in H as (w1 & chunks & Hrun & Hout & Hagent & _).
  pose proof (run_history_OK P _ w w1 _ Hrun) as Hh. cbn in Hh.
  split.
  { rewrite Hagent. cbn. rewrite Hh, <- (assoc_L (++)). reflexivity. }
  split; [by exists w1, chunks|].
  split; [intros s; apply condensed_format_differs|].
  intros nodes Hnodes. by apply prepare_query_differs.
Qed.

Lemma history_holds_query_and_answer_witness :
  let th := {| model := "llama"; prompt := "And its second page?";
               thread_image := None; thread_lookup_files := {[ "a.txt" ]} |} in
  let w' := (thread_run sample th after_a).1 in
  thread_run sample th after_a = (w', OK "It is a file.")
  ∧ chat_history (agent after_a)
    = [ {| role := "user"; content := CStr "What is a.txt?" |} ]
  ∧ chat_history (agent w')
    = chat_history (agent after_a)
        ++ [ {| role := "user"; content := CStr "And its second page?" |};
             {| role := "assistant"; content := CStr "It is a file." |} ].
Proof.
  cbn zeta.
  set (th := {| model := "llama"; prompt := "And its second page?";
                thread_image := None; thread_lookup_files := {[ "a.txt" ]} |}).
  assert (Hrun : thread_run sample th after_a
                 = ((thread_run sample th after_a).1, OK "It is a file."))
    by (vm_compute; reflexivity).
  split; [exact Hrun|]. split; [vm_compute; reflexivity|].
  destruct (history_holds_query_and_answer sample th after_a _ _ Hrun) as (Hh & _).
  exact Hh.
Defined.

(** ** C3. Condensation *)

(** C3: condensation returns the query unchanged exactly when the history is
    empty and there is no retriever, and then it makes no call.  Otherwise,
    when every turn of the history renders as a line "<role>: <text>\n" and
    the model answers with a rewrite, it makes exactly one model call, not
    streamed, whose single user message is the text
    "Given the chat history:\n" + three single quotes + all the lines in order
    + three single quotes + "\n\nAnd the user asked the following question:"
    + query + "\nRewrite to a standalone question:\n", and returns
    "Context:\n" + rewrite + "\nQuestion: " + query; the agent is left as it
    was.  In particular, in any reachable world with an
    empty history, an invocation with the empty file set passes setup and has
    its query returned unchanged by condensation. *)
Theorem condense_history_to_query_spec P ctx w :
  (chat_history (agent w) = [] ∧ retriever (agent w) = None ->
   condense_history_to_query P ctx w = (w, OK (query_str ctx)))
  ∧ (∀ w', condense_history_to_query P ctx w = (w', OK (query_str ctx)) ->
           chat_history (agent w) = [] ∧ retriever (agent w) = None)
  ∧ (∀ lines rewrite,
       ¬ (chat_history (agent w) = [] ∧ retriever (agent w) = None) ->
       Forall2 renders_as (chat_history (agent w)) lines ->
       let prompt :=
         [ {| role := "user";
              content :=
                CStr ("Given the chat history:" +:+ LF +:+
                      "'''" +:+ foldr String.append "" lines +:+ "'''" +:+ LF +:+ LF +:+
                      "And the user asked the following question:" +:+
                      query_str ctx +:+ LF +:+
                      "Rewrite to a standalone question:" +:+ LF) |} ] in
       create_chat_completion P (length (calls w)) prompt false
       = OK (Complete rewrite) ->
       condense_history_to_query P ctx w
       = ({| agent := agent w;
             calls := calls w ++ [ChatCompletion prompt false] |},
          OK ("Context:" +:+ LF +:+ rewrite +:+ LF +:+ "Question: " +:+ query_str ctx)))
  ∧ (∀ ev,
       reachable P w ->
       ev_lookup_files ev = ∅ ->
       chat_history (agent w) = [] ->
       ∃ w1 ctx1,
         setup P ev w = (w1, OK ctx1)
         ∧ condense_history_to_query P ctx1 w1 = (w1, OK (ev_query_str ev))).
Proof.
  assert (Hempty : ∀ ev,
            reachable P w ->
            ev_lookup_files ev = ∅ ->
            chat_history (agent w) = [] ->
            ∃ w1 ctx1,
              setup P ev w = (w1, OK ctx1)
              ∧ condense_history_to_query P ctx1 w1 = (w1, OK (ev_query_str ev))).
  { intros ev Hreach Hfiles Hhist.
    destruct (setup_no_files_ok P ev w Hfiles (reachable_no_files P w Hreach))
      as (w1 & Hsetup & Hr & Hh).
    eexists _, _. split; [exact Hsetup|].
    unfold condense_history_to_query. mred.
    rewrite Hr, Hh, Hhist. by cbn. }
  revert Hempty.
  pose proof (fast_path_condition (agent w)) as Hfast.
  unfold condense_history_to_query. mred.
  destruct (bool_decide (0 < length (chat_history (agent w)))
            || bool_decide (retriever (agent w) ≠ None)) eqn:Hcond.
  - assert (Hslow : ¬ (chat_history (agent w) = [] ∧ retriever (agent w) = None)).
    { intros H. apply Hfast in H. discriminate. }
    intros Hempty. split; [done|]. split; [|split; [|exact Hempty]].
    + intros w'.
      destruct (convert_message_list_to_str _) as [transcript|e]; cbn; [|done].
      destruct (create_chat_completion P _ _ _) as [[rewrite|chunks fault]|e]; cbn;
        [|done..].
      intros [= _ H]. by apply condensed_format_differs in H.
    + intros lines rewrite _ Hlines Hmodel.
      rewrite (renders_as_transcript _ _ Hlines). cbn.
      unfold SUMMARY_TEMPLATE. by rewrite Hmodel.
  - intros Hempty. split; [|split; [|split; [|exact Hempty]]].
    + done.
    + intros w' _. by apply Hfast.
    + intros lines rewrite Hslow. destruct Hslow. by apply Hfast.
Qed.

Lemma condense_history_to_query_spec_witness :
  let ctx := {| query_str := "What is a.txt?"; image := None; streaming := true |} in
  let again := {| query_str := "And its second page?"; image := None; streaming := true |} in
  let prompt :=
    [ {| role := "user";
         content :=
           CStr ("Given the chat history:" +:+ LF +:+
                 "'''" +:+ ("user: What is a.txt?" +:+ LF) +:+ "'''" +:+ LF +:+ LF +:+
                 "And the user asked the following question:" +:+
                 "And its second page?" +:+ LF +:+
                 "Rewrite to a standalone question:" +:+ LF) |} ] in
  condense_history_to_query sample ctx fresh = (fresh, OK "What is a.txt?")
  ∧ (∃ w1 ctx1,
       setup sample (ask "What is a.txt?" ∅) fresh = (w1, OK ctx1)
       ∧ condense_history_to_query sample ctx1 w1 = (w1, OK "What is a.txt?"))
  ∧ chat_history (agent after_a)
    = [ {| role := "user"; content := CStr "What is a.txt?" |} ]
  ∧ condense_history_to_query sample again after_a
    = ({| agent := agent after_a;
          calls := calls after_a ++ [ChatCompletion prompt false] |},
       OK ("Context:" +:+ LF +:+ "What is a.txt?" +:+ LF +:+ "Question: "
             +:+ "And its second page?")).
Proof.
  cbn zeta.
  destruct (condense_history_to_query_spec sample
              {| query_str := "What is a.txt?"; image := None; streaming := true |}
              fresh) as (Hfast & _ & _ & Hempty).
  destruct (condense_history_to_query_spec sample
              {| query_str := "And its second page?"; image := None;
                 streaming := true |}
              after_a) as (_ & _ & Hslow & _).
  assert (Hhist : chat_history (agent after_a)
                  = [ {| role := "user"; content := CStr "What is a.txt?" |} ])
    by (vm_compute; reflexivity).
  split; [|split; [|split; [exact Hhist|]]].
  - apply Hfast. split; reflexivity.
  - apply (Hempty (ask "What is a.txt?" ∅)).
    + apply reachable_init.
    + reflexivity.
    + reflexivity.
  - apply (Hslow ["user: What is a.txt?" +:+ LF]).
    + intros [H _]. by vm_compute in H.
    + rewrite Hhist. constructor; [|constructor].
      exists "What is a.txt?". split; [by left | reflexivity].
    + reflexivity.
Defined.

(** ** C4. Failure *)

(** C4: a run that raises leaves the chat history as it found it; an error
    raised by any step, and in particular by the model during condensation
    or final generation, is the outcome of the run; and when the run
    succeeds, its last call is the model call that returned the response, and
    the history has grown by the user turn only. *)
Theorem failed_run_keeps_history P ev w :
  (∀ w' e, run P ev w = (w', Raise e) ->
           chat_history (agent w') = chat_history (agent w))
  ∧ (∀ w1 e, setup P ev w = (w1, Raise e) -> run P ev w = (w1, Raise e))
  ∧ (∀ w1 ctx w2 e,
       setup P ev w = (w1, OK ctx) ->
       condense_history_to_query P ctx w1 = (w2, Raise e) ->
       run P ev w = (w2, Raise e))
  ∧ (∀ w1 ctx w2 condensed w3 e,
       setup P ev w = (w1, OK ctx) ->
       condense_history_to_query P ctx w1 = (w2, OK condensed) ->
       retrieve P condensed w2 = (w3, Raise e) ->
       run P ev w = (w3, Raise e))
  ∧ (∀ w1 ctx w2 condensed w3 nodes w4 e,
       setup P ev w = (w1, OK ctx) ->
       condense_history_to_query P ctx w1 = (w2, OK condensed) ->
       retrieve P condensed w2 = (w3, OK nodes) ->
       llm_response P ctx nodes w3 = (w4, Raise e) ->
       run P ev w = (w4, Raise e))
  ∧ (∀ ctx w0 transcript e,
       ¬ (chat_history (agent w0) = [] ∧ retriever (agent w0) = None) ->
       convert_message_list_to_str (chat_history (agent w0)) = OK transcript ->
       create_chat_completion P (length (calls w0))
         (condensation_prompt transcript (query_str ctx)) false = Raise e ->
       (condense_history_to_query P ctx w0).2 = Raise e)
  ∧ (∀ ctx nodes w0 e,
       create_chat_completion P (length (calls w0))
         (chat_history (agent w0)
            ++ [formated_message
                  (_prepare_query_with_context P (query_str ctx) nodes) (image ctx)])
         (streaming ctx) = Raise e ->
       (llm_response P ctx nodes w0).2 = Raise e
       ∧ agent (llm_response P ctx nodes w0).1 = agent w0)
  ∧ (∀ w' response, run P ev w = (w', OK response) ->
       ∃ w3 messages,
         calls w' = calls w3 ++ [ChatCompletion messages (ev_streaming ev)]
         ∧ create_chat_completion P (length (calls w3)) messages (ev_streaming ev)
           = OK response
         ∧ chat_history (agent w')
           = chat_history (agent w)
               ++ [ {| role := "user"; content := CStr (ev_query_str ev) |} ]).
Proof.
  split; [intros w' e; apply run_history_Raise|].
  split. { intros w1 e H. unfold run. by rewrite (bind_fail _ _ _ _ _ H). }
  split.
  { intros w1 ctx w2 e H1 H2. unfold run.
    by rewrite (bind_step _ _ _ _ _ H1), (bind_fail _ _ _ _ _ H2). }
  split.
  { intros w1 ctx w2 cq w3 e H1 H2 H3. unfold run.
    by rewrite (bind_step _ _ _ _ _ H1), (bind_step _ _ _ _ _ H2),
               (bind_fail _ _ _ _ _ H3). }
  split.
  { intros w1 ctx w2 cq w3 nodes w4 e H1 H2 H3 H4. unfold run.
    by rewrite (bind_step _ _ _ _ _ H1), (bind_step _ _ _ _ _ H2),
               (bind_step _ _ _ _ _ H3). }
  split.
  { intros ctx w0 transcript e Hslow Hconv Hmodel.
    unfold condense_history_to_query. mred.
    destruct (bool_decide (0 < length (chat_history (agent w0)))
              || bool_decide (retriever (agent w0) ≠ None)) eqn:Hcond.
    - rewrite Hconv. cbn. unfold condensation_prompt in Hmodel. by rewrite Hmodel.
    - destruct Hslow. by apply fast_path_condition. }
  split.
  { intros ctx nodes w0 e Hmodel. rewrite llm_response_cases. cbn.
    by rewrite Hmodel. }
  intros w' response Hrun.
  pose proof (run_history_OK P ev w w' response Hrun) as Hhist.
  apply run_OK in Hrun as (w1 & ctx & w2 & cq & w3 & nodes & H1 & H2 & H3 & H4).
  apply setup_context in H1 as ->.
  rewrite llm_response_cases in H4. cbn in H4.
  destruct (create_chat_completion P _ _ _) as [r|] eqn:Hmodel; [|discriminate].
  injection H4 as <- <-. eexists w3, _. by repeat split.
Qed.

Lemma failed_run_keeps_history_witness :
  let ev := ask "What is a.txt?" {[ "a.txt" ]} in
  let w' := (run sample_failing ev fresh).1 in
  run sample_failing ev fresh = (w', Raise (ProviderError 1))
  ∧ chat_history (agent w') = chat_history (agent fresh)
  ∧ search_index (agent w') ≠ None.
Proof.
  cbn zeta.
  assert (Hrun : run sample_failing (ask "What is a.txt?" {[ "a.txt" ]}) fresh
                 = ((run sample_failing (ask "What is a.txt?" {[ "a.txt" ]}) fresh).1,
                    Raise (ProviderError 1)))
    by (vm_compute; reflexivity).
  split; [exact Hrun|]. split.
  - destruct (failed_run_keeps_history sample_failing
                (ask "What is a.txt?" {[ "a.txt" ]}) fresh) as (Hkeep & _).
    exact (Hkeep _ _ Hrun).
  - intros H. by vm_compute in H.
Defined.

(** ** C5. Setup with an unchanged file set *)

(** C5: when the submitted file set equals the retained one, setup makes no
    call at all (no clear, no rebuild, no insert) and leaves the agent, index
    and retriever included, exactly as it was; it only fills the context. *)
Theorem setup_same_set_is_noop P ev w :
  ev_lookup_files ev = lookup_files (agent w) ->
  setup P ev w
  = (w, OK {| query_str := ev_query_str ev; image := ev_image ev;
              streaming := ev_streaming ev |}).
Proof.
  intros Heq. unfold setup. mred.
  destruct (decide (ev_lookup_files ev ≠ lookup_files (agent w))); [done|].
  cbn. rewrite Heq. f_equal. destruct w as [[] ?]; reflexivity.
Qed.

Lemma setup_same_set_is_noop_witness :
  let ev := ask "What else?" {[ "a.txt" ]} in
  ev_lookup_files ev = lookup_files (agent after_a)
  ∧ setup sample ev after_a
    = (after_a, OK {| query_str := "What else?"; image := None; streaming := true |}).
Proof.
  cbn zeta. split.
  - vm_compute. reflexivity.
  - apply (setup_same_set_is_noop sample (ask "What else?" {[ "a.txt" ]}) after_a).
    vm_compute. reflexivity.
Defined.

(** ** C6. Retrieval *)

(** C6: for an agent whose retriever was made with top-k [k], retrieval
    returns at most [k] nodes and none whose score is below the cut-off; without a retriever it returns the empty sequence, makes no
    call, and does not fail.  In every reachable world [k] is 3 and the
    cut-off is 3/10, the values set by the constructor. *)
Theorem retrieve_spec P condensed_query_str w :
  retriever_uses_k (agent w) ->
  (retriever (agent w) = None -> retrieve P condensed_query_str w = (w, OK []))
  ∧ (∀ w' nodes,
       retrieve P condensed_query_str w = (w', OK nodes) ->
       length nodes ≤ k (agent w)
       ∧ Forall (at_least (similarity_cutoff (agent w))) nodes)
  ∧ (reachable P w ->
       k (agent w) = 3 ∧ similarity_cutoff (agent w) = (3 # 10)%Q).
Proof.
  intros Huses. split; [|split].
  - intros Hnone. unfold retrieve. mred. by rewrite Hnone.
  - intros w' nodes. unfold retrieve. mred.
    destruct (retriever (agent w)) as [r|] eqn:Hr; cbn.
    + unfold aretrieve.
      destruct (similarity P _ _ _) as [scored|e]; cbn; [|done].
      intros [= _ <-]. split; [|apply postprocess_nodes_cutoff].
      etransitivity; [apply postprocess_nodes_length|].
      rewrite length_take, (Huses r Hr). lia.
    + intros [= _ <-]. split; [cbn; lia | constructor].
  - intros Hreach. by destruct (reachable_settings P w Hreach) as (? & ? & _).
Qed.

Lemma retrieve_spec_witness :
  let page n path text :=
    {| text := text; file_path := path; page_index := Some n |} in
  let nodes :=
    [ page_score (page 0 "a.txt" "first page of a.txt");
      page_score (page 0 "b.txt" "first page of b.txt") ] in
  retrieve sample "What is there?" fresh = (fresh, OK [])
  ∧ retrieve sample "What is there?" indexed_ab
    = ({| agent := agent indexed_ab;
          calls := calls indexed_ab ++ [ARetrieve "What is there?"] |}, OK nodes)
  ∧ length nodes ≤ k (agent indexed_ab)
  ∧ Forall (at_least (similarity_cutoff (agent indexed_ab))) nodes
  ∧ k (agent indexed_ab) = 3
  ∧ similarity_cutoff (agent indexed_ab) = (3 # 10)%Q.
Proof.
  cbn zeta.
  assert (Hfresh : retriever_uses_k (agent fresh)) by (by intros r).
  assert (Hab : retriever_uses_k (agent indexed_ab)).
  { intros r H. vm_compute in H. injection H as <-. reflexivity. }
  destruct (retrieve_spec sample "What is there?" fresh Hfresh) as (Hnone & _ & _).
  destruct (retrieve_spec sample "What is there?" indexed_ab Hab) as (_ & Hsome & _).
  assert (Hrun : retrieve sample "What is there?" indexed_ab
                 = ({| agent := agent indexed_ab;
                       calls := calls indexed_ab ++ [ARetrieve "What is there?"] |},
                    OK [ page_score {| text := "first page of a.txt";
                                       file_path := "a.txt"; page_index := Some 0 |};
                         page_score {| text := "first page of b.txt";
                                       file_path := "b.txt"; page_index := Some 0 |} ]))
    by (vm_compute; reflexivity).
  destruct (Hsome _ _ Hrun) as [Hlen Hcut].
  split; [apply Hnone; reflexivity|].
  split; [exact Hrun|].
  split; [exact Hlen|].
  split; [exact Hcut|].
  split; reflexivity.
Defined.

(** ** C7. Composing without nodes *)

(** C7: with no nodes the composed prompt is the query itself, and only
    then: any node adds the context section. *)
Theorem compose_without_nodes P query_str :
  _prepare_query_with_context P query_str [] = query_str
  ∧ ∀ nodes, _prepare_query_with_context P query_str nodes = query_str <-> nodes = [].
Proof.
  split; [reflexivity|]. intros nodes. split.
  - intros H. destruct nodes as [|n rest]; [done|].
    by apply (prepare_query_differs P query_str (n :: rest)) in H.
  - by intros ->.
Qed.

(** ** C8. Page ordinals *)

(** C8: when [udpate_index] indexes a non-empty file set, the documents it
    hands to the index are the documents read, in reading order, and for
    every source path the ordinals of its documents are 0, 1, ..., n-1 in that
    order, n being the number of documents read from that path; they are the
    ordinals the path would get if it were read alone, and no two of these
    documents share both path and ordinal.  When the index is built (there
    was none), these documents are exactly its contents. *)
Theorem rebuild_assigns_page_ordinals P files w documents :
  files ≠ ∅ ->
  load_data P (length (calls w)) files = OK documents ->
  indexing_ok P (S (length (calls w))) (search_index (agent w))
    (assign_page_index ∅ documents) ->
  ∃ w' stamped,
    udpate_index P files w = (w', OK tt)
    ∧ search_index (agent w')
      = Some (default [] (search_index (agent w)) ++ stamped)
    ∧ (search_index (agent w) = None -> search_index (agent w') = Some stamped)
    ∧ (λ d, (text d, file_path d)) <$> stamped
      = (λ d, (text d, file_path d)) <$> documents
    ∧ (∀ path, ordinals_of path stamped
               = Some <$> seq 0 (chunks_of path documents))
    ∧ (∀ path, ordinals_of path stamped
               = ordinals_of path
                   (assign_page_index ∅ (filter (λ d, file_path d = path) documents)))
    ∧ NoDup ((λ d, (file_path d, page_index d)) <$> stamped).
Proof.
  intros Hne Hload Hok.
  assert (Hord : ∀ path,
            ordinals_of path (assign_page_index ∅ documents)
            = Some <$> seq 0 (chunks_of path documents)).
  { intros path. by rewrite assign_page_index_from, lookup_empty. }
  exists (udpate_index P files w).1, (assign_page_index ∅ documents).
  rewrite (udpate_index_ok P files w documents Hne Hload Hok). cbn.
  split; [reflexivity|]. split; [reflexivity|].
  split; [by intros ->|].
  split; [apply assign_page_index_shape|].
  split; [exact Hord|]. split.
  - intros path. rewrite Hord, assign_page_index_from, lookup_empty. cbn.
    f_equal. f_equal. unfold chunks_of. f_equal.
    rewrite list_filter_filter. apply list_filter_iff. intros d. tauto.
  - apply NoDup_by_key. intros path.
    change (NoDup (ordinals_of path (assign_page_index ∅ documents))).
    rewrite Hord. apply NoDup_fmap_2; [|apply NoDup_seq].
    intros x y Heq. by injection Heq.
Qed.

Lemma rebuild_assigns_page_ordinals_witness :
  let files : gset string := {[ "a.txt"; "b.txt" ]} in
  let documents := flat_map two_pages (elements files) in
  ∃ w' stamped,
    udpate_index sample files fresh = (w', OK tt)
    ∧ search_index (agent w')
      = Some (default [] (search_index (agent fresh)) ++ stamped)
    ∧ (search_index (agent fresh) = None -> search_index (agent w') = Some stamped)
    ∧ (λ d, (text d, file_path d)) <$> stamped
      = (λ d, (text d, file_path d)) <$> documents
    ∧ (∀ path, ordinals_of path stamped
               = Some <$> seq 0 (chunks_of path documents))
    ∧ (∀ path, ordinals_of path stamped
               = ordinals_of path
                   (assign_page_index ∅ (filter (λ d, file_path d = path) documents)))
    ∧ NoDup ((λ d, (file_path d, page_index d)) <$> stamped).
Proof.
  cbn zeta.
  apply (rebuild_assigns_page_ordinals sample {[ "a.txt"; "b.txt" ]} fresh).
  - intros H. by vm_compute in H.
  - reflexivity.
  - reflexivity.
Defined.

(** ** C9. The image *)

(** C9: in a successful run with an image, the steps before the model call
    run as they would without the image; the image goes into the structured
    user message of the final model call, next to the composed text; the user
    turn appended to the history holds the plain query string only. *)
Theorem image_only_in_model_message P ev w w' response url :
  truthy (ev_image ev) = Some url ->
  run P ev w = (w', OK response) ->
  let plain := {| query_str := ev_query_str ev; image := None;
                  streaming := ev_streaming ev |} in
  ∃ w1 w2 condensed w3 nodes,
    setup P (without_image ev) w = (w1, OK plain)
    ∧ condense_history_to_query P plain w1 = (w2, OK condensed)
    ∧ retrieve P condensed w2 = (w3, OK nodes)
    ∧ calls w'
      = calls w3
          ++ [ChatCompletion
                (chat_history (agent w)
                   ++ [ {| role := "user";
                           content :=
                             CParts [ TextPart (_prepare_query_with_context P
                                                  (ev_query_str ev) nodes);
                                      ImageUrlPart url ] |} ])
                (ev_streaming ev)]
    ∧ chat_history (agent w')
      = chat_history (agent w)
          ++ [ {| role := "user"; content := CStr (ev_query_str ev) |} ].
Proof.
  intros Himg Hrun plain.
  pose proof (run_history_OK P ev w w' response Hrun) as Hhist.
  apply run_OK in Hrun as (w1 & ctx & w2 & cq & w3 & nodes & H1 & H2 & H3 & H4).
  pose proof (history_before_response _ _ _ _ _ _ _ _ _ H1 H2 H3) as Hh.
  exists w1, w2, cq, w3, nodes.
  split; [by eapply setup_ignores_image|].
  apply setup_context in H1 as ->.
  split; [erewrite condense_reads_query_only; [exact H2 | reflexivity]|].
  split; [done|]. split; [|done].
  rewrite llm_response_cases in H4. cbn in H4.
  destruct (create_chat_completion P _ _ _); [|discriminate].
  injection H4 as <- _. cbn. unfold formated_message. by rewrite Himg, Hh.
Qed.

Lemma image_only_in_model_message_witness :
  let w' := (run sample screen_question fresh).1 in
  truthy (ev_image screen_question) = Some "file:///tmp/shot.png"
  ∧ run sample screen_question fresh = (w', OK (Stream sample_stream None))
  ∧ ∃ w3 nodes,
      calls w'
      = calls w3
          ++ [ChatCompletion
                (chat_history (agent fresh)
                   ++ [ {| role := "user";
                           content :=
                             CParts [ TextPart (_prepare_query_with_context sample
                                                  "What is on the screen?" nodes);
                                      ImageUrlPart "file:///tmp/shot.png" ] |} ])
                true]
      ∧ chat_history (agent w')
        = chat_history (agent fresh)
            ++ [ {| role := "user"; content := CStr "What is on the screen?" |} ].
Proof.
  cbn zeta.
  assert (Himg : truthy (ev_image screen_question) = Some "file:///tmp/shot.png")
    by reflexivity.
  assert (Hrun : run sample screen_question fresh
                 = ((run sample screen_question fresh).1, OK (Stream sample_stream None)))
    by (vm_compute; reflexivity).
  split; [exact Himg|]. split; [exact Hrun|].
  destruct (image_only_in_model_message sample screen_question fresh _ _ _ Himg Hrun)
    as (w1 & w2 & cq & w3 & nodes & _ & _ & _ & Hcalls & Hhist).
  exists w3, nodes. split; [exact Hcalls | exact Hhist].
Defined.

(** ** C10. The final prompt *)

(** C10: in a successful run the condensed query is what the retriever is
    called with (when there is one): it is the query of the retriever call and
    of the similarity search that yields the nodes.  The last model call
    receives the history followed by one user message whose text is the
    original query string itself when no node was retrieved, and otherwise
    "Information that might help:\n-----\n" + for each node in order
    ("\n" + its text + "\n\n") + "\n-----\nPlease write a response to the
    following question, using the above information if relevant:\n" + the
    original query + "\n"; the image, if any, goes beside the text.  The
    condensed query is no part of it. *)
Theorem final_prompt_from_query_and_nodes P ev w w' response :
  run P ev w = (w', OK response) ->
  ∃ w1 ctx w2 condensed w3 nodes,
    setup P ev w = (w1, OK ctx)
    ∧ condense_history_to_query P ctx w1 = (w2, OK condensed)
    ∧ retrieve P condensed w2 = (w3, OK nodes)
    ∧ (retriever (agent w2) ≠ None -> calls w3 = calls w2 ++ [ARetrieve condensed])
    ∧ (retriever (agent w2) = None -> w3 = w2 ∧ nodes = [])
    ∧ (∀ r, retriever (agent w2) = Some r ->
         ∃ scored,
           similarity P (length (calls w2)) (default [] (search_index (agent w2)))
             condensed = OK scored
           ∧ nodes = postprocess_nodes (similarity_cutoff (agent w2))
                       (take (similarity_top_k r) (merge_sort ranks_before scored)))
    ∧ let node_texts :=
        foldr (λ n rest, LF +:+ get_content P (node n) +:+ LF +:+ LF +:+ rest)
          "" nodes in
      let text :=
        match nodes with
        | [] => ev_query_str ev
        | _ :: _ =>
            "Information that might help:" +:+ LF +:+
            "-----" +:+ LF +:+
            node_texts +:+ LF +:+
            "-----" +:+ LF +:+
            "Please write a response to the following question, using the above information if relevant:" +:+ LF +:+
            ev_query_str ev +:+ LF
        end in
      let message :=
        match ev_image ev with
        | None | Some "" => {| role := "user"; content := CStr text |}
        | Some url =>
            {| role := "user"; content := CParts [TextPart text; ImageUrlPart url] |}
        end in
      calls w'
      = calls w3
          ++ [ChatCompletion (chat_history (agent w) ++ [message]) (ev_streaming ev)].
Proof.
  intros Hrun.
  apply run_OK in Hrun as (w1 & ctx & w2 & cq & w3 & nodes & H1 & H2 & H3 & H4).
  pose proof (history_before_response _ _ _ _ _ _ _ _ _ H1 H2 H3) as Hh.
  exists w1, ctx, w2, cq, w3, nodes.
  repeat (split; [done|]).
  assert (Hctx := setup_context _ _ _ _ _ H1). subst ctx.
  rewrite llm_response_cases in H4. cbn in H4.
  destruct (create_chat_completion P _ _ _); [|discriminate].
  injection H4 as <- _. cbn [calls]. rewrite Hh.
  split; [|split; [|split]].
  - revert H3. unfold retrieve. mred.
    destruct (retriever (agent w2)) as [r|]; cbn; [|done].
    destruct (aretrieve P _ _ _ _); cbn; [|discriminate]. by intros [= <- _].
  - revert H3. unfold retrieve. mred.
    destruct (retriever (agent w2)) as [r|]; cbn; [done|].
    by intros [= <- <-].
  - intros r Hr. revert H3. unfold retrieve, aretrieve. mred. rewrite Hr. cbn.
    destruct (similarity P _ _ _) as [scored|e]; cbn; [|discriminate].
    intros [= _ <-]. by exists scored.
  - cbn zeta. do 3 f_equal.
    assert (Htext :
      _prepare_query_with_context P (ev_query_str ev) nodes
      = match nodes with
        | [] => ev_query_str ev
        | _ :: _ =>
            "Information that might help:" +:+ LF +:+
            "-----" +:+ LF +:+
            foldr (λ n rest, LF +:+ get_content P (node n) +:+ LF +:+ LF +:+ rest)
              "" nodes +:+ LF +:+
            "-----" +:+ LF +:+
            "Please write a response to the following question, using the above information if relevant:" +:+ LF +:+
            ev_query_str ev +:+ LF
        end).
    { destruct nodes as [|n rest]; [done|].
      unfold _prepare_query_with_context. by rewrite node_context_from_texts. }
    rewrite Htext. unfold formated_message.
    by destruct (ev_image ev) as [[|c url]|].
Qed.

Lemma final_prompt_from_query_and_nodes_witness :
  let ev := ask "And its second page?" {[ "a.txt" ]} in
  let w' := (run sample ev after_a).1 in
  let condensed :=
    "Context:" +:+ LF +:+ "What is a.txt?" +:+ LF +:+ "Question: "
      +:+ "And its second page?" in
  let text :=
    "Information that might help:" +:+ LF +:+
    "-----" +:+ LF +:+
    (LF +:+ "first page of a.txt" +:+ LF +:+ LF) +:+ LF +:+
    "-----" +:+ LF +:+
    "Please write a response to the following question, using the above information if relevant:" +:+ LF +:+
    "And its second page?" +:+ LF in
  run sample ev after_a = (w', OK (Stream sample_stream None))
  ∧ chat_history (agent after_a)
    = [ {| role := "user"; content := CStr "What is a.txt?" |} ]
  ∧ drop (length (calls after_a) + 1) (calls w')
    = [ ARetrieve condensed;
        ChatCompletion
          [ {| role := "user"; content := CStr "What is a.txt?" |};
            {| role := "user"; content := CStr text |} ] true ].
Proof.
  cbn zeta.
  assert (Hrun : run sample (ask "And its second page?" {[ "a.txt" ]}) after_a
                 = ((run sample (ask "And its second page?" {[ "a.txt" ]}) after_a).1,
                    OK (Stream sample_stream None)))
    by (vm_compute; reflexivity).
  assert (Hhist : chat_history (agent after_a)
                  = [ {| role := "user"; content := CStr "What is a.txt?" |} ])
    by (vm_compute; reflexivity).
  split; [exact Hrun|]. split; [exact Hhist|].
  destruct (final_prompt_from_query_and_nodes sample _ after_a _ _ Hrun)
    as (w1 & ctx & w2 & cq & w3 & nodes & H1 & H2 & H3 & Hr & _ & _ & Hcalls).
  assert (Hw1 : setup sample (ask "And its second page?" {[ "a.txt" ]}) after_a
                = (after_a, OK {| query_str := "And its second page?"; image := None;
                                  streaming := true |}))
    by (vm_compute; reflexivity).
  rewrite Hw1 in H1. injection H1 as <- <-.
  vm_compute in H2. injection H2 as <- <-.
  vm_compute in H3. injection H3 as <- <-.
  cbn zeta in Hcalls. rewrite Hcalls, Hhist. vm_compute. reflexivity.
Defined.

(** * Further properties *)

(** ** The transcript *)

Lemma convert_renderable messages :
  Forall renderable messages ->
  ∃ transcript, convert_message_list_to_str messages = OK transcript.
Proof.
  induction 1 as [|m rest [line Hm] _ [t IH]]; [by exists ""|].
  rewrite convert_cons, Hm, IH. by eexists.
Qed.

Lemma plain_turn_renderable m : plain_turn m -> renderable m.
Proof. intros [s Hs]. unfold renderable, message_line. rewrite Hs. by eexists. Qed.

(** X1: the transcript of two histories put end to end is the transcript of
    the first followed by that of the second. *)
Theorem transcript_of_app h1 h2 t1 t2 :
  convert_message_list_to_str h1 = OK t1 ->
  convert_message_list_to_str h2 = OK t2 ->
  convert_message_list_to_str (h1 ++ h2) = OK (t1 +:+ t2).
Proof.
  revert t1; induction h1 as [|m rest IH]; intros t1 H1 H2.
  - injection H1 as <-. exact H2.
  - cbn [app]. rewrite convert_cons in H1 |- *.
    destruct (message_line m) as [line|e]; [|discriminate].
    destruct (convert_message_list_to_str rest) as [t|e] eqn:Hrest; [|discriminate].
    injection H1 as <-. rewrite (IH t eq_refl H2). by rewrite string_app_assoc.
Qed.

Lemma transcript_of_app_witness :
  convert_message_list_to_str
    ([ {| role := "user"; content := CStr "Hi" |} ]
       ++ [ {| role := "assistant"; content := CDict {[ "text" := "Hello" ]} |} ])
  = OK (("user: Hi" +:+ LF) +:+ ("assistant: Hello" +:+ LF)).
Proof.
  apply (transcript_of_app
           [ {| role := "user"; content := CStr "Hi" |} ]
           [ {| role := "assistant"; content := CDict {[ "text" := "Hello" ]} |} ]).
  - reflexivity.
  - vm_compute. reflexivity.
Defined.

(** X2: the transcript raises at the first turn it cannot render, with that
    turn's exception: [TypeError] for a content that is a list of parts,
    [KeyError] for a dict without "text"; the turns after it do not matter. *)
Theorem transcript_raises_at_first_bad_turn h1 m h2 :
  Forall renderable h1 ->
  ¬ renderable m ->
  ∃ e,
    convert_message_list_to_str (h1 ++ m :: h2) = Raise e
    ∧ message_line m = Raise e
    ∧ (∀ parts, content m = CParts parts -> e = TypeError)
    ∧ (∀ d, content m = CDict d -> e = KeyError ∧ d !! "text" = None).
Proof.
  intros Hh1 Hm.
  assert (∃ e, message_line m = Raise e) as [e He].
  { destruct (message_line m) as [line|e] eqn:E; [|by eexists].
    destruct Hm. by exists line. }
  exists e. split; [|split; [done|split]].
  - induction Hh1 as [|x rest [line Hx] _ IH]; cbn [app]; rewrite convert_cons.
    + by rewrite He.
    + by rewrite Hx, IH.
  - intros parts Hc. unfold message_line in He. rewrite Hc in He. congruence.
  - intros d Hc. unfold message_line in He. rewrite Hc in He.
    destruct (d !! "text"); [discriminate|]. split; congruence.
Qed.

Lemma transcript_raises_at_first_bad_turn_witness :
  let shown := {| role := "user";
                  content := CParts [TextPart "What is this?";
                                     ImageUrlPart "file:///tmp/shot.png"] |} in
  ∃ e,
    convert_message_list_to_str
      ([ {| role := "user"; content := CStr "Hi" |} ] ++ shown
         :: [ {| role := "assistant"; content := CStr "A screenshot." |} ])
    = Raise e
    ∧ message_line shown = Raise e
    ∧ (∀ parts, content shown = CParts parts -> e = TypeError)
    ∧ (∀ d, content shown = CDict d -> e = KeyError ∧ d !! "text" = None).
Proof.
  cbn zeta.
  apply (transcript_raises_at_first_bad_turn
           [ {| role := "user"; content := CStr "Hi" |} ]).
  - constructor; [|constructor]. by eexists.
  - intros [line H]. discriminate.
Defined.

(** X3: a turn whose content is a dict contributes its "text" entry only: the
    transcript is the one of the same history with that turn's content
    replaced by the text as a plain string. *)
Theorem transcript_reads_text_entry_only h1 h2 r d t :
  d !! "text" = Some t ->
  convert_message_list_to_str (h1 ++ {| role := r; content := CDict d |} :: h2)
  = convert_message_list_to_str (h1 ++ {| role := r; content := CStr t |} :: h2).
Proof.
  intros Hd. induction h1 as [|x rest IH]; cbn [app]; rewrite !convert_cons.
  - unfold message_line. cbn. by rewrite Hd.
  - by rewrite IH.
Qed.

Lemma transcript_reads_text_entry_only_witness :
  convert_message_list_to_str
    ([] ++ {| role := "user";
              content := CDict {[ "text" := "What is this?";
                                  "image_url" := "file:///tmp/shot.png" ]} |} :: [])
  = convert_message_list_to_str
      ([] ++ {| role := "user"; content := CStr "What is this?" |} :: []).
Proof.
  apply (transcript_reads_text_entry_only [] [] "user").
  vm_compute. reflexivity.
Defined.

(** ** Index refresh: the empty set and the failures *)

(** The loop when the insert of document number [i] fails: the documents
    before it are in the index, the others are not tried. *)
Lemma insert_documents_fail P documents w i doc e :
  (∀ j d, j < i -> documents !! j = Some d ->
          index_insert P (length (calls w) + j) d = None) ->
  documents !! i = Some doc ->
  index_insert P (length (calls w) + i) doc = Some e ->
  insert_documents P documents w
  = ({| agent := match take i documents with
                 | [] => agent w
                 | _ => set_search_index
                          (Some (default [] (search_index (agent w)) ++ take i documents))
                          (agent w)
                 end;
        calls := calls w ++ (InsertDocument <$> take (S i) documents) |}, Raise e).
Proof.
  revert w i; induction documents as [|x rest IH]; intros w i Hok Hi Hfail; [done|].
  cbn [insert_documents]. mred.
  destruct i as [|i].
  - injection Hi as ->. rewrite Nat.add_0_r in Hfail. rewrite Hfail. cbn.
    by rewrite take_0.
  - rewrite <- (Nat.add_0_r (length (calls w))), (Hok 0 x ltac:(lia) eq_refl). cbn.
    rewrite (IH _ i).
    + cbn. rewrite <- !(assoc_L (++)). cbn.
      destruct (take i rest); cbn; by rewrite <- ?(assoc_L (++)).
    + intros j d Hj Hd. cbn. rewrite length_app. cbn.
      replace (length (calls w) + 1 + j) with (length (calls w) + S j) by lia.
      apply Hok; [lia | done].
    + exact Hi.
    + cbn. rewrite length_app. cbn.
      by replace (length (calls w) + 1 + i) with (length (calls w) + S i) by lia.
Qed.

Lemma insert_documents_keeps_index P documents w :
  is_Some (search_index (agent w)) ->
  is_Some (search_index (agent (insert_documents P documents w).1)).
Proof.
  revert w; induction documents as [|doc rest IH]; intros w Hs; [done|].
  cbn [insert_documents]. mred.
  destruct (index_insert P (length (calls w)) doc); cbn; [done|].
  apply IH. by cbn.
Qed.

(** X4: a setup that switches from a non-empty retained set to the empty set
    cannot fail and consults no provider: it logs one clear, drops index and
    retriever, retains the empty set and keeps the history; the retrieval step
    then returns no node and makes no call. *)
Theorem setup_empty_set_clears P ev w condensed :
  ev_lookup_files ev = ∅ ->
  lookup_files (agent w) ≠ ∅ ->
  ∃ w1 ctx,
    setup P ev w = (w1, OK ctx)
    ∧ calls w1 = calls w ++ [ClearIndex]
    ∧ search_index (agent w1) = None
    ∧ retriever (agent w1) = None
    ∧ lookup_files (agent w1) = ∅
    ∧ chat_history (agent w1) = chat_history (agent w)
    ∧ retrieve P condensed w1 = (w1, OK []).
Proof.
  intros Hempty Hne. unfold setup. mred. rewrite Hempty.
  destruct (decide (∅ ≠ lookup_files (agent w))) as [_|Hs].
  - unfold udpate_index. destruct (decide (∅ = ∅)); [|done]. mred.
    eexists _, _. split; [reflexivity|]. by cbn.
  - destruct Hs. congruence.
Qed.

Lemma setup_empty_set_clears_witness :
  ∃ w1 ctx,
    setup sample (ask "And now?" ∅) after_a = (w1, OK ctx)
    ∧ calls w1 = calls after_a ++ [ClearIndex]
    ∧ search_index (agent w1) = None
    ∧ retriever (agent w1) = None
    ∧ lookup_files (agent w1) = ∅
    ∧ chat_history (agent w1) = chat_history (agent after_a)
    ∧ retrieve sample "And now?" w1 = (w1, OK []).
Proof.
  apply (setup_empty_set_clears sample (ask "And now?" ∅) after_a).
  - reflexivity.
  - intros H. by vm_compute in H.
Defined.

(** X5: when the reader raises, setup raises the same exception after the one
    logged read and leaves the agent exactly as it was: index, retriever and
    retained set are unchanged, so the same file set still counts as
    different on the next invocation. *)
Theorem setup_reader_failure P ev w e :
  ev_lookup_files ev ≠ lookup_files (agent w) ->
  ev_lookup_files ev ≠ ∅ ->
  load_data P (length (calls w)) (ev_lookup_files ev) = Raise e ->
  setup P ev w
  = ({| agent := agent w; calls := calls w ++ [LoadData (ev_lookup_files ev)] |},
     Raise e).
Proof.
  intros Hdiff Hne Hload. unfold setup. mred.
  destruct (decide (ev_lookup_files ev ≠ lookup_files (agent w))); [|done].
  unfold udpate_index. destruct (decide (ev_lookup_files ev = ∅)); [done|].
  mred. by rewrite Hload.
Qed.

Lemma setup_reader_failure_witness :
  let ev := ask "What is a.txt?" {[ "a.txt" ]} in
  setup sample_unreadable ev fresh
  = ({| agent := agent fresh;
        calls := calls fresh ++ [LoadData (ev_lookup_files ev)] |},
     Raise (ProviderError 2)).
Proof.
  cbn zeta.
  apply (setup_reader_failure sample_unreadable (ask "What is a.txt?" {[ "a.txt" ]}) fresh).
  - intros H. by vm_compute in H.
  - intros H. by vm_compute in H.
  - reflexivity.
Defined.

(** X6: when there is no index and building one raises, setup raises the same
    exception and leaves the agent exactly as it was: no index, no new
    retriever, the retained set unchanged. *)
Theorem setup_build_failure P ev w documents e :
  ev_lookup_files ev ≠ lookup_files (agent w) ->
  ev_lookup_files ev ≠ ∅ ->
  search_index (agent w) = None ->
  load_data P (length (calls w)) (ev_lookup_files ev) = OK documents ->
  from_documents P (S (length (calls w))) (assign_page_index ∅ documents) = Some e ->
  setup P ev w
  = ({| agent := agent w;
        calls := calls w ++ [LoadData (ev_lookup_files ev);
                             FromDocuments (assign_page_index ∅ documents)] |},
     Raise e).
Proof.
  intros Hdiff Hne Hidx Hload Hbuild. unfold setup. mred.
  destruct (decide (ev_lookup_files ev ≠ lookup_files (agent w))); [|done].
  unfold udpate_index. destruct (decide (ev_lookup_files ev = ∅)); [done|].
  mred. rewrite Hload. cbn. rewrite Hidx. cbn.
  rewrite length_app. cbn.
  replace (length (calls w) + 1) with (S (length (calls w))) by lia.
  rewrite Hbuild. cbn. by rewrite <- (assoc_L (++)).
Qed.

Lemma setup_build_failure_witness :
  let ev := ask "What is a.txt?" {[ "a.txt" ]} in
  let documents := flat_map two_pages (elements (ev_lookup_files ev)) in
  setup sample_no_build ev fresh
  = ({| agent := agent fresh;
        calls := calls fresh ++ [LoadData (ev_lookup_files ev);
                                 FromDocuments (assign_page_index ∅ documents)] |},
     Raise (ProviderError 3)).
Proof.
  cbn zeta.
  apply (setup_build_failure sample_no_build (ask "What is a.txt?" {[ "a.txt" ]}) fresh).
  - intros H. by vm_compute in H.
  - intros H. by vm_compute in H.
  - reflexivity.
  - reflexivity.
  - reflexivity.
Defined.

(** X7: when there is an index and the insert of document number [i] raises,
    setup raises the same exception and the refresh is left half done: the
    index has gained the [i] documents before it, the later ones were not
    tried, and retriever, retained set and history are unchanged. *)
Theorem setup_insert_failure P ev w old documents i doc e :
  ev_lookup_files ev ≠ lookup_files (agent w) ->
  ev_lookup_files ev ≠ ∅ ->
  search_index (agent w) = Some old ->
  load_data P (length (calls w)) (ev_lookup_files ev) = OK documents ->
  (∀ j d, j < i -> assign_page_index ∅ documents !! j = Some d ->
          index_insert P (S (length (calls w)) + j) d = None) ->
  assign_page_index ∅ documents !! i = Some doc ->
  index_insert P (S (length (calls w)) + i) doc = Some e ->
  setup P ev w
  = ({| agent := set_search_index
                   (Some (old ++ take i (assign_page_index ∅ documents))) (agent w);
        calls := calls w ++ [LoadData (ev_lookup_files ev)]
                   ++ (InsertDocument <$> take (S i) (assign_page_index ∅ documents)) |},
     Raise e).
Proof.
  intros Hdiff Hne Hidx Hload Hok Hi Hfail. unfold setup. mred.
  destruct (decide (ev_lookup_files ev ≠ lookup_files (agent w))); [|done].
  unfold udpate_index. destruct (decide (ev_lookup_files ev = ∅)); [done|].
  mred. rewrite Hload. cbn. rewrite Hidx. cbn.
  rewrite (insert_documents_fail P _ _ i doc e).
  - cbn. rewrite Hidx. cbn. rewrite <- (assoc_L (++)). cbn.
    destruct (take i (assign_page_index ∅ documents)); cbn; [|done].
    by rewrite app_nil_r, (set_search_index_same _ old).
  - intros j d Hj Hd. cbn. rewrite length_app. cbn.
    replace (length (calls w) + 1 + j) with (S (length (calls w)) + j) by lia.
    by apply Hok.
  - exact Hi.
  - cbn. rewrite length_app. cbn.
    by replace (length (calls w) + 1 + i) with (S (length (calls w)) + i) by lia.
Qed.

Lemma setup_insert_failure_witness :
  let ev := ask "And b.txt?" {[ "a.txt"; "b.txt" ]} in
  let stamped :=
    assign_page_index ∅ (flat_map two_pages (elements (ev_lookup_files ev))) in
  let page n path text :=
    {| text := text; file_path := path; page_index := Some n |} in
  let a0 := page 0 "a.txt" "first page of a.txt" in
  let a1 := page 1 "a.txt" "second page of a.txt" in
  take 2 stamped = [a0; a1]
  ∧ search_index (agent after_a) = Some [a0; a1]
  ∧ setup sample_no_insert_b ev after_a
    = ({| agent := set_search_index (Some ([a0; a1] ++ take 2 stamped)) (agent after_a);
          calls := calls after_a ++ [LoadData (ev_lookup_files ev)]
                     ++ (InsertDocument <$> take 3 stamped) |},
       Raise (ProviderError 4)).
Proof.
  cbn zeta. split; [vm_compute; reflexivity|]. split; [vm_compute; reflexivity|].
  apply (setup_insert_failure sample_no_insert_b
           (ask "And b.txt?" {[ "a.txt"; "b.txt" ]}) after_a
           _ _ 2
           {| text := "first page of b.txt"; file_path := "b.txt";
              page_index := Some 0 |}).
  - intros H. by vm_compute in H.
  - intros H. by vm_compute in H.
  - vm_compute. reflexivity.
  - reflexivity.
  - intros j d Hj Hd. vm_compute in Hd.
    destruct j as [|[|j]]; [| |lia]; injection Hd as <-; reflexivity.
  - vm_compute. reflexivity.
  - reflexivity.
Defined.

(** ** Index, retriever and retained set go together *)

Lemma udpate_index_outcome P files w :
  lookup_files (agent (udpate_index P files w).1) = lookup_files (agent w)
  ∧ match (udpate_index P files w).2 with
    | OK _ =>
        (files = ∅ -> retriever (agent (udpate_index P files w).1) = None
                      ∧ search_index (agent (udpate_index P files w).1) = None)
        ∧ (files ≠ ∅ -> retriever (agent (udpate_index P files w).1) ≠ None
                        ∧ search_index (agent (udpate_index P files w).1) ≠ None)
    | Raise _ =>
        retriever (agent (udpate_index P files w).1) = retriever (agent w)
        ∧ (search_index (agent (udpate_index P files w).1) = None
           <-> search_index (agent w) = None)
    end.
Proof.
  unfold udpate_index. destruct (decide (files = ∅)) as [He|Hne].
  { mred. split; [done|]. split; [done|]. by intros []. }
  mred. destruct (load_data P (length (calls w)) files) as [documents|e]; cbn; [|done].
  destruct (search_index (agent w)) as [old|] eqn:Hidx; cbn.
  - match goal with |- context [insert_documents P ?d ?w1] =>
      pose proof (insert_documents_frame P d w1) as Hf;
      pose proof (insert_documents_keeps_index P d w1) as Hk;
      destruct (insert_documents P d w1) as [w2 [[]|e]] end; cbn in *;
    destruct Hf as (_ & Hr & _ & Hl & _); rewrite Hidx in Hk;
    specialize (Hk ltac:(by eexists)); destruct Hk as [new Hnew].
    + split; [done|]. split; [done|]. intros _. split; [done|]. by rewrite Hnew.
    + split; [done|]. split; [done|]. rewrite Hnew. by split.
  - match goal with |- context [from_documents P ?t ?d] =>
      destruct (from_documents P t d) end; cbn.
    + split; [done|]. split; [done|]. by rewrite Hidx.
    + split; [done|]. split; [done|]. by intros _.
Qed.

Lemma setup_retains P ev w w1 ctx :
  setup P ev w = (w1, OK ctx) -> lookup_files (agent w1) = ev_lookup_files ev.
Proof.
  unfold setup. mred.
  destruct (decide _); cbn.
  - destruct (udpate_index P _ w) as [w2 [[]|e]]; cbn; [|discriminate].
    by intros [= <- _].
  - by intros [= <- _].
Qed.

Lemma setup_configured P ev w :
  configured (agent w) -> configured (agent (setup P ev w).1).
Proof.
  intros [Hri Hlr]. unfold setup. mred.
  destruct (decide (ev_lookup_files ev ≠ lookup_files (agent w))) as [Hd|Hs]; cbn.
  - destruct (udpate_index_outcome P (ev_lookup_files ev) w) as [Hl Hout].
    destruct (udpate_index P (ev_lookup_files ev) w) as [w1 [[]|e]]; cbn in *.
    + destruct Hout as [Hempty Hfull].
      destruct (decide (ev_lookup_files ev = ∅)) as [He|Hne].
      * destruct (Hempty He) as [Hr Hi]. unfold configured. cbn.
        rewrite Hr, Hi. by repeat split.
      * destruct (Hfull Hne) as [Hr Hi]. unfold configured. cbn.
        by repeat split.
    + destruct Hout as [Hr Hi]. split.
      * rewrite Hr, Hi. exact Hri.
      * rewrite Hr, Hl. exact Hlr.
  - assert (ev_lookup_files ev = lookup_files (agent w)) as ->; [|by split].
    destruct (decide (ev_lookup_files ev = lookup_files (agent w))); [done|].
    by destruct Hs.
Qed.

Lemma reachable_configured P w : reachable P w -> configured (agent w).
Proof.
  induction 1 as [|ev w _ IH|th w _ IH].
  - by repeat split.
  - destruct (run_agent P ev w) as [h ->]. by apply (setup_configured P ev w).
  - destruct (thread_run_agent P th w) as [h ->]. by apply (setup_configured P _ w).
Qed.

(** X8: in every world the agent can reach, index, retriever and retained
    file set are present or absent together: there is a retriever exactly
    when there is an index, and exactly when the retained set is not empty,
    whatever runs failed on the way. *)
Theorem reachable_agent_is_configured P w :
  reachable P w ->
  (retriever (agent w) = None <-> search_index (agent w) = None)
  ∧ (lookup_files (agent w) = ∅ <-> retriever (agent w) = None).
Proof. apply reachable_configured. Qed.

Lemma reachable_agent_is_configured_witness :
  (retriever (agent after_a) = None <-> search_index (agent after_a) = None)
  ∧ (lookup_files (agent after_a) = ∅ <-> retriever (agent after_a) = None).
Proof.
  apply (reachable_agent_is_configured sample after_a).
  apply (reachable_run sample (ask "What is a.txt?" {[ "a.txt" ]}) fresh).
  apply reachable_init.
Defined.

(** X9: on a reachable agent whose history is empty, once setup has
    succeeded the condensation step returns the query unchanged exactly when
    the submitted file set is empty: a first question that comes with files
    is always sent to the model for rewriting. *)
Theorem first_question_condensed_iff_files P ev w w1 ctx :
  reachable P w ->
  chat_history (agent w) = [] ->
  setup P ev w = (w1, OK ctx) ->
  (∃ w2, condense_history_to_query P ctx w1 = (w2, OK (ev_query_str ev)))
  <-> ev_lookup_files ev = ∅.
Proof.
  intros Hreach Hhist Hsetup.
  pose proof (setup_configured P ev w (reachable_configured P w Hreach)) as [_ Hlr].
  pose proof (setup_history P ev w) as Hh.
  rewrite Hsetup in Hlr, Hh. cbn in Hlr, Hh.
  rewrite (setup_retains P ev w w1 ctx Hsetup) in Hlr.
  rewrite Hhist in Hh.
  apply setup_context in Hsetup as ->.
  pose proof (fast_path_condition (agent w1)) as Hfast.
  unfold condense_history_to_query. mred.
  destruct (bool_decide (0 < length (chat_history (agent w1)))
            || bool_decide (retriever (agent w1) ≠ None)) eqn:Hcond.
  - split.
    + intros [w2 H]. revert H.
      destruct (convert_message_list_to_str _) as [transcript|e]; cbn; [|done].
      destruct (create_chat_completion P _ _ _) as [[rewrite|chunks]|e]; cbn; [|done..].
      intros [= _ H]. by apply condensed_format_differs in H.
    + intros Hempty. apply Hlr in Hempty.
      assert (true = false); [|done]. by apply Hfast.
  - split; [|by eexists]. intros _. apply Hlr. by apply Hfast.
Qed.

Lemma first_question_condensed_iff_files_witness :
  let ev := ask "What is a.txt?" {[ "a.txt" ]} in
  let w1 := (setup sample ev fresh).1 in
  let ctx := {| query_str := "What is a.txt?"; image := None; streaming := true |} in
  setup sample ev fresh = (w1, OK ctx)
  ∧ ((∃ w2, condense_history_to_query sample ctx w1 = (w2, OK (ev_query_str ev)))
     <-> ev_lookup_files ev = ∅).
Proof.
  cbn zeta.
  assert (Hsetup : setup sample (ask "What is a.txt?" {[ "a.txt" ]}) fresh
                   = ((setup sample (ask "What is a.txt?" {[ "a.txt" ]}) fresh).1,
                      OK {| query_str := "What is a.txt?"; image := None;
                            streaming := true |}))
    by (vm_compute; reflexivity).
  split; [exact Hsetup|].
  apply (first_question_condensed_iff_files sample _ fresh _ _
           (reachable_init sample) eq_refl Hsetup).
Defined.

(** ** The image and the prompt *)

(** X10: an image that is the empty string counts as no image: the run makes
    the same calls, returns the same response and leaves the same world as
    the run of the same event without image. *)
Theorem run_ignores_empty_image P ev w :
  truthy (ev_image ev) = None ->
  run P ev w = run P (with_image None ev) w.
Proof.
  destruct ev as [q [[|c s]|] files stream]; cbn.
  - intros _. unfold with_image, run, setup. mred.
    destruct (decide (files ≠ lookup_files (agent w)));
      [destruct (udpate_index P files w) as [w1 [[]|e]]|]; reflexivity.
  - done.
  - reflexivity.
Qed.

Lemma run_ignores_empty_image_witness :
  let ev := {| ev_query_str := "What is a.txt?"; ev_image := Some "";
               ev_lookup_files := {[ "a.txt" ]}; ev_streaming := true |} in
  run sample ev fresh = run sample (with_image None ev) fresh.
Proof.
  cbn zeta.
  apply (run_ignores_empty_image sample
           {| ev_query_str := "What is a.txt?"; ev_image := Some "";
              ev_lookup_files := {[ "a.txt" ]}; ev_streaming := true |} fresh).
  reflexivity.
Defined.

Lemma node_context_from_blocks P acc nodes :
  node_context_from P acc nodes
  = acc +:+ foldr (λ n rest, node_block P n +:+ rest) "" nodes.
Proof.
  revert acc; induction nodes as [|n rest IH]; intros acc; cbn.
  - by rewrite string_app_nil_r.
  - rewrite IH. unfold node_block. by rewrite !string_app_assoc.
Qed.

(** X11: with at least one node, the final prompt is the context template
    filled with the blocks of the nodes, one per node ("\n" + text + "\n\n")
    in the order the nodes came in, and with the query; and whatever the
    nodes, two different queries never give the same prompt. *)
Theorem prompt_lists_nodes_in_order P query_str nodes :
  nodes ≠ [] ->
  _prepare_query_with_context P query_str nodes
  = CONTEXT_PROMPT_TEMPLATE
      (foldr (λ n rest, node_block P n +:+ rest) "" nodes) query_str
  ∧ ∀ other,
      _prepare_query_with_context P other nodes
      = _prepare_query_with_context P query_str nodes ->
      other = query_str.
Proof.
  intros Hne. destruct nodes as [|n rest]; [done|].
  unfold _prepare_query_with_context. rewrite node_context_from_blocks.
  change ("" +:+ ?s) with s. split; [reflexivity|].
  intros other H. unfold CONTEXT_PROMPT_TEMPLATE in H.
  repeat apply String.app_inj in H.
  by apply string_app_inv_tail in H.
Qed.

Lemma prompt_lists_nodes_in_order_witness :
  let page n path text :=
    {| text := text; file_path := path; page_index := Some n |} in
  let nodes := [ page_score (page 0 "a.txt" "first page of a.txt");
                 page_score (page 0 "b.txt" "first page of b.txt") ] in
  _prepare_query_with_context sample "What is there?" nodes
  = CONTEXT_PROMPT_TEMPLATE
      (foldr (λ n rest, node_block sample n +:+ rest) "" nodes) "What is there?"
  ∧ ∀ other,
      _prepare_query_with_context sample other nodes
      = _prepare_query_with_context sample "What is there?" nodes ->
      other = "What is there?".
Proof.
  cbn zeta.
  apply (prompt_lists_nodes_in_order sample "What is there?").
  discriminate.
Defined.

(** ** The history stays renderable *)

(** X12: if every turn of the history is a plain string, the same holds
    after a run of the workflow, whether it succeeds or raises, and the
    transcript of the resulting history can be rendered: condensation in the
    next run does not raise on the history. *)
Theorem run_keeps_history_plain P ev w :
  Forall plain_turn (chat_history (agent w)) ->
  Forall plain_turn (chat_history (agent (run P ev w).1))
  ∧ ∃ transcript,
      convert_message_list_to_str (chat_history (agent (run P ev w).1))
      = OK transcript.
Proof.
  intros Hplain.
  assert (Hafter : Forall plain_turn (chat_history (agent (run P ev w).1))).
  { destruct (run P ev w) as [w' [response|e]] eqn:Hrun; cbn.
    - rewrite (run_history_OK P ev w w' response Hrun).
      apply Forall_app. split; [done|]. constructor; [|constructor]. by eexists.
    - by rewrite (run_history_Raise P ev w w' e Hrun). }
  split; [done|]. apply convert_renderable.
  eapply Forall_impl; [exact Hafter|]. apply plain_turn_renderable.
Qed.

Lemma run_keeps_history_plain_witness :
  let ev := ask "And its second page?" {[ "a.txt" ]} in
  Forall plain_turn (chat_history (agent (run sample ev after_a).1))
  ∧ ∃ transcript,
      convert_message_list_to_str (chat_history (agent (run sample ev after_a).1))
      = OK transcript.
Proof.
  cbn zeta.
  apply (run_keeps_history_plain sample (ask "And its second page?" {[ "a.txt" ]}) after_a).
  vm_compute. constructor; [|constructor]. by eexists.
Defined.

(** ** The workflow emits no signal *)

Lemma quiet_ret {A} (a : A) : adds_quiet_calls (ret a).
Proof. intros w. exists []. by rewrite app_nil_r. Qed.

Lemma quiet_raise {A} e : adds_quiet_calls (@raise A e).
Proof. intros w. exists []. by rewrite app_nil_r. Qed.

Lemma quiet_lift {A} (r : result A) : adds_quiet_calls (lift r).
Proof. intros w. exists []. by rewrite app_nil_r. Qed.

Lemma quiet_self : adds_quiet_calls self.
Proof. intros w. exists []. by rewrite app_nil_r. Qed.

Lemma quiet_update f : adds_quiet_calls (update f).
Proof. intros w. exists []. cbn. by rewrite app_nil_r. Qed.

Lemma quiet_check fault : adds_quiet_calls (check fault).
Proof. destruct fault; [apply quiet_raise | apply quiet_ret]. Qed.

Lemma quiet_call e : quiet e -> adds_quiet_calls (call e).
Proof. intros He w. exists [e]. split; [done|]. by constructor. Qed.

Lemma quiet_bind {A B} (m : M A) (f : A -> M B) :
  adds_quiet_calls m -> (∀ a, adds_quiet_calls (f a)) -> adds_quiet_calls (bind m f).
Proof.
  intros Hm Hf w. destruct (Hm w) as (l1 & E1 & Q1). unfold bind.
  destruct (m w) as [w1 [a|e]]; cbn in *; [|by exists l1].
  destruct (Hf a w1) as (l2 & E2 & Q2).
  exists (l1 ++ l2). rewrite E2, E1, (assoc_L (++)). split; [done|].
  by apply Forall_app.
Qed.

Ltac quiet_step :=
  first [ apply quiet_bind; [|intros ?] | apply quiet_ret | apply quiet_raise
        | apply quiet_lift | apply quiet_self | apply quiet_update
        | apply quiet_check | apply quiet_call; exact I ].

Lemma quiet_insert_documents P documents :
  adds_quiet_calls (insert_documents P documents).
Proof. induction documents as [|doc rest IH]; cbn; repeat quiet_step. exact IH. Qed.

Lemma quiet_udpate_index P files : adds_quiet_calls (udpate_index P files).
Proof.
  unfold udpate_index. destruct (decide (files = ∅)); repeat quiet_step.
  destruct (search_index _); repeat quiet_step. apply quiet_insert_documents.
Qed.

Lemma quiet_setup P ev : adds_quiet_calls (setup P ev).
Proof.
  unfold setup. repeat quiet_step.
  destruct (decide _); [apply quiet_udpate_index | quiet_step].
Qed.

Lemma quiet_condense P ctx : adds_quiet_calls (condense_history_to_query P ctx).
Proof.
  unfold condense_history_to_query. repeat quiet_step.
  destruct (_ || _); repeat quiet_step.
  match goal with |- adds_quiet_calls (match ?r with _ => _ end) => destruct r end;
    quiet_step.
Qed.

Lemma quiet_retrieve P condensed : adds_quiet_calls (retrieve P condensed).
Proof. unfold retrieve. repeat quiet_step. destruct (retriever _); repeat quiet_step. Qed.

Lemma quiet_llm_response P ctx nodes : adds_quiet_calls (llm_response P ctx nodes).
Proof. unfold llm_response. repeat quiet_step. Qed.

Lemma quiet_run P ev : adds_quiet_calls (run P ev).
Proof.
  unfold run.
  apply quiet_bind; [apply quiet_setup | intros ctx].
  apply quiet_bind; [apply quiet_condense | intros condensed].
  apply quiet_bind; [apply quiet_retrieve | intros nodes].
  apply quiet_llm_response.
Qed.

Lemma signalled_quiet log rest :
  Forall quiet log -> signalled (log ++ rest) = signalled rest.
Proof.
  induction 1 as [|e log He _ IH]; [done|]. cbn. by destruct e.
Qed.

Lemma signalled_updates shown rest :
  signalled ((UpdateSignal <$> shown) ++ rest)
  = foldr String.append (signalled rest) shown.
Proof. induction shown as [|s shown IH]; cbn; [done | by rewrite IH]. Qed.

Lemma foldl_string_append acc shown :
  foldl String.append acc shown = acc +:+ foldr String.append "" shown.
Proof.
  revert acc; induction shown as [|s shown IH]; intros acc; cbn.
  - by rewrite string_app_nil_r.
  - by rewrite IH, string_app_assoc.
Qed.

(** ** The thread and its signals *)

(** X13: when [ProcessingThread.run] completes, the text of all the update
    signals emitted since it started, put end to end, is the text it
    collected; the finished signal is emitted once, as the very last call;
    and the collected text is the content of the assistant turn that now
    ends the history. *)
Theorem thread_run_signals_the_answer P th w w' out :
  thread_run P th w = (w', OK out) ->
  ∃ new_calls,
    calls w' = calls w ++ new_calls ++ [FinishedSignal]
    ∧ (FinishedSignal ∉ new_calls)
    ∧ signalled new_calls = out
    ∧ last (chat_history (agent w'))
      = Some {| role := "assistant"; content := CStr out |}.
Proof.
  intros H. apply thread_run_OK in H as (w1 & chunks & Hrun & Hout & Hagent & Hcalls).
  match type of Hrun with run P ?ev w = _ =>
    destruct (quiet_run P ev w) as (l & Hl & Hq) end.
  rewrite Hrun in Hl. cbn in Hl.
  exists (l ++ (UpdateSignal <$> fragments chunks)).
  split; [by rewrite Hcalls, Hl, <- !(assoc_L (++))|]. split; [|split].
  - intros Hin. apply elem_of_app in Hin as [Hin|Hin].
    + rewrite Forall_forall in Hq. by apply Hq in Hin.
    + apply list_elem_of_fmap in Hin as (s & Hs & _). discriminate.
  - rewrite signalled_quiet by done.
    rewrite <- (app_nil_r (UpdateSignal <$> _)), signalled_updates. cbn.
    rewrite Hout, foldl_string_append. reflexivity.
  - rewrite Hagent. cbn. by rewrite last_snoc.
Qed.

Lemma thread_run_signals_the_answer_witness :
  let th := {| model := "llama"; prompt := "What is a.txt?"; thread_image := None;
               thread_lookup_files := {[ "a.txt" ]} |} in
  thread_run sample th fresh = (after_thread, OK "It is a file.")
  ∧ ∃ new_calls,
      calls after_thread = calls fresh ++ new_calls ++ [FinishedSignal]
      ∧ (FinishedSignal ∉ new_calls)
      ∧ signalled new_calls = "It is a file."
      ∧ last (chat_history (agent after_thread))
        = Some {| role := "assistant"; content := CStr "It is a file." |}.
Proof.
  cbn zeta.
  assert (Hrun : thread_run sample
                   {| model := "llama"; prompt := "What is a.txt?";
                      thread_image := None; thread_lookup_files := {[ "a.txt" ]} |}
                   fresh
                 = (after_thread, OK "It is a file."))
    by (vm_compute; reflexivity).
  split; [exact Hrun|].
  exact (thread_run_signals_the_answer sample _ fresh _ _ Hrun).
Defined.

(** X14: when [ProcessingThread.run] raises, it has emitted no finished
    signal and appended no assistant turn.  Its calls are those of the
    workflow, none of them a signal, followed by update signals only: none if
    the workflow itself raised (the thread then raises the same exception from
    the same state) or returned no stream, and otherwise the first of the
    fragments of the stream, in order; in that case the history is the one it
    started with followed by the user turn alone. *)
Theorem thread_run_failure_never_finishes P th w w' e :
  thread_run P th w = (w', Raise e) ->
  let ev := {| ev_query_str := prompt th; ev_image := thread_image th;
               ev_lookup_files := thread_lookup_files th; ev_streaming := true |} in
  ∃ workflow_calls shown,
    calls w' = calls w ++ workflow_calls ++ (UpdateSignal <$> shown)
    ∧ Forall quiet workflow_calls
    ∧ (FinishedSignal ∉ workflow_calls ++ (UpdateSignal <$> shown))
    ∧ (chat_history (agent w') = chat_history (agent w)
       ∨ chat_history (agent w')
         = chat_history (agent w)
             ++ [ {| role := "user"; content := CStr (prompt th) |} ])
    ∧ (∀ w1 e1, run P ev w = (w1, Raise e1) -> w' = w1 ∧ e = e1 ∧ shown = [])
    ∧ (∀ w1 response,
         run P ev w = (w1, OK response) ->
         calls w1 = calls w ++ workflow_calls
         ∧ agent w' = agent w1
         ∧ chat_history (agent w')
           = chat_history (agent w)
               ++ [ {| role := "user"; content := CStr (prompt th) |} ]
         ∧ match response with
           | Complete _ => shown = [] ∧ e = TypeError
           | Stream chunks _ => shown `prefix_of` fragments chunks
           end).
Proof.
  unfold thread_run, chat_completion. intros H. cbn zeta.
  assert (Hno : ∀ l shown, Forall quiet l ->
            FinishedSignal ∉ l ++ (UpdateSignal <$> shown)).
  { intros l shown Hq Hin. apply elem_of_app in Hin as [Hin|Hin].
    - rewrite Forall_forall in Hq. by apply Hq in Hin.
    - apply list_elem_of_fmap in Hin as (s & Hs & _). discriminate. }
  match type of H with context [run P ?ev] =>
    destruct (quiet_run P ev w) as (l & Hl & Hq);
    destruct (run P ev w) as [w1 [[answer|chunks fault]|e1]] eqn:Hrun end;
    [rewrite (bind_step _ _ _ _ _ Hrun) in H ..
    | rewrite (bind_fail _ _ _ _ _ Hrun) in H]; cbn in Hl.
  - injection H as <- <-. exists l, []. cbn. rewrite app_nil_r.
    pose proof (run_history_OK P _ w w1 _ Hrun) as Hh. cbn in Hh.
    split; [done|]. split; [done|].
    split; [specialize (Hno l [] Hq); by rewrite app_nil_r in Hno|].
    split; [by right|]. split; [done|].
    intros w2 response [= <- <-]. done.
  - pose proof (run_history_OK P _ w w1 _ Hrun) as Hh. cbn in Hh.
    pose proof (collect_agent "" chunks w1) as Ha.
    destruct (collect_prefix "" chunks w1) as (shown & Hp & Hs).
    destruct (collect "" chunks w1) as [w2 [full|e2]] eqn:Hc; cbn in Ha, Hs.
    + rewrite (bind_step _ _ _ _ _ Hc) in H.
      destruct fault as [e0|]; [|discriminate].
      revert H. mred. intros [= <- <-]. exists l, shown.
      split; [by rewrite Hs, Hl, <- (assoc_L (++))|]. split; [done|].
      split; [by apply Hno|]. rewrite Ha.
      split; [by right|]. split; [done|].
      intros w3 response [= <- <-]. done.
    + rewrite (bind_fail _ _ _ _ _ Hc) in H. injection H as <- <-.
      exists l, shown.
      split; [by rewrite Hs, Hl, <- (assoc_L (++))|]. split; [done|].
      split; [by apply Hno|]. rewrite Ha.
      split; [by right|]. split; [done|].
      intros w3 response [= <- <-]. done.
  - injection H as <- <-. exists l, []. cbn. rewrite app_nil_r.
    pose proof (run_history_Raise P _ w w1 _ Hrun) as Hh.
    split; [done|]. split; [done|].
    split; [specialize (Hno l [] Hq); by rewrite app_nil_r in Hno|].
    split; [by left|]. split; [|done].
    by intros w2 e2 [= <- <-].
Qed.

Lemma thread_run_failure_never_finishes_witness :
  let th := {| model := "llama"; prompt := "What is a.txt?"; thread_image := None;
               thread_lookup_files := {[ "a.txt" ]} |} in
  let ev := {| ev_query_str := "What is a.txt?"; ev_image := None;
               ev_lookup_files := {[ "a.txt" ]}; ev_streaming := true |} in
  let w' := (thread_run sample_breaking th fresh).1 in
  thread_run sample_breaking th fresh = (w', Raise (ProviderError 5))
  ∧ signalled (calls w') = "It is a file."
  ∧ ∃ workflow_calls shown,
      calls w' = calls fresh ++ workflow_calls ++ (UpdateSignal <$> shown)
      ∧ Forall quiet workflow_calls
      ∧ (FinishedSignal ∉ workflow_calls ++ (UpdateSignal <$> shown))
      ∧ (chat_history (agent w') = chat_history (agent fresh)
         ∨ chat_history (agent w')
           = chat_history (agent fresh)
               ++ [ {| role := "user"; content := CStr "What is a.txt?" |} ])
      ∧ (∀ w1 e1, run sample_breaking ev fresh = (w1, Raise e1) ->
           w' = w1 ∧ ProviderError 5 = e1 ∧ shown = [])
      ∧ (∀ w1 response,
           run sample_breaking ev fresh = (w1, OK response) ->
           calls w1 = calls fresh ++ workflow_calls
           ∧ agent w' = agent w1
           ∧ chat_history (agent w')
             = chat_history (agent fresh)
                 ++ [ {| role := "user"; content := CStr "What is a.txt?" |} ]
           ∧ match response with
             | Complete _ => shown = [] ∧ ProviderError 5 = TypeError
             | Stream chunks _ => shown `prefix_of` fragments chunks
             end).
Proof.
  cbn zeta.
  set (th := {| model := "llama"; prompt := "What is a.txt?"; thread_image := None;
                thread_lookup_files := {[ "a.txt" ]} |}).
  assert (Hrun : thread_run sample_breaking th fresh
                 = ((thread_run sample_breaking th fresh).1, Raise (ProviderError 5)))
    by (vm_compute; reflexivity).
  split; [exact Hrun|]. split; [vm_compute; reflexivity|].
  exact (thread_run_failure_never_finishes sample_breaking th fresh _ _ Hrun).
Defined.

(** ** The calls of a successful run *)

(** X15: after its setup, a successful run makes its calls in this order and
    no others.  First the condensation: no call, and the query itself as the
    condensed query, when the history is empty and there is no retriever;
    otherwise one model call, not streamed, with the summary prompt over the
    transcript of the history and the query, whose answer gives the condensed
    query "Context:\n" + answer + "\nQuestion: " + query.  Then the retrieval:
    no call and no nodes without a retriever; otherwise one retriever call
    with that condensed query, the nodes being the top k of the similarity
    search for it that reach the cutoff.  Last the model call that answers,
    with the history, the message made of the query and these nodes, and the
    streaming flag of the event. *)
Theorem run_calls_in_order P ev w w' response :
  run P ev w = (w', OK response) ->
  ∃ w1 ctx condensation condensed retrieval nodes,
    setup P ev w = (w1, OK ctx)
    ∧ ((chat_history (agent w1) = [] ∧ retriever (agent w1) = None
        ∧ condensation = [] ∧ condensed = ev_query_str ev)
       ∨ (¬ (chat_history (agent w1) = [] ∧ retriever (agent w1) = None)
          ∧ ∃ transcript rewrite,
              convert_message_list_to_str (chat_history (agent w)) = OK transcript
              ∧ let prompt :=
                  [ {| role := "user";
                       content :=
                         CStr ("Given the chat history:" +:+ LF +:+
                               "'''" +:+ transcript +:+ "'''" +:+ LF +:+ LF +:+
                               "And the user asked the following question:" +:+
                               ev_query_str ev +:+ LF +:+
                               "Rewrite to a standalone question:" +:+ LF) |} ] in
                create_chat_completion P (length (calls w1)) prompt false
                = OK (Complete rewrite)
                ∧ condensation = [ChatCompletion prompt false]
                ∧ condensed
                  = "Context:" +:+ LF +:+ rewrite +:+ LF +:+ "Question: "
                      +:+ ev_query_str ev))
    ∧ ((retriever (agent w1) = None ∧ retrieval = [] ∧ nodes = [])
       ∨ (∃ r scored,
            retriever (agent w1) = Some r
            ∧ similarity P (length (calls w1 ++ condensation))
                (default [] (search_index (agent w1))) condensed
              = OK scored
            ∧ retrieval = [ARetrieve condensed]
            ∧ nodes = postprocess_nodes (similarity_cutoff (agent w1))
                        (take (similarity_top_k r) (merge_sort ranks_before scored))))
    ∧ let node_texts :=
        foldr (λ n rest, LF +:+ get_content P (node n) +:+ LF +:+ LF +:+ rest)
          "" nodes in
      let text :=
        match nodes with
        | [] => ev_query_str ev
        | _ :: _ =>
            "Information that might help:" +:+ LF +:+
            "-----" +:+ LF +:+
            node_texts +:+ LF +:+
            "-----" +:+ LF +:+
            "Please write a response to the following question, using the above information if relevant:" +:+ LF +:+
            ev_query_str ev +:+ LF
        end in
      let message :=
        match ev_image ev with
        | None | Some "" => {| role := "user"; content := CStr text |}
        | Some url =>
            {| role := "user"; content := CParts [TextPart text; ImageUrlPart url] |}
        end in
      calls w'
      = calls w1 ++ condensation ++ retrieval
          ++ [ChatCompletion (chat_history (agent w) ++ [message]) (ev_streaming ev)].
Proof.
  intros Hrun.
  apply run_OK in Hrun as (w1 & ctx & w2 & cq & w3 & nodes & H1 & H2 & H3 & H4).
  pose proof (history_before_response _ _ _ _ _ _ _ _ _ H1 H2 H3) as Hh.
  pose proof (setup_history P ev w) as Hh1. rewrite H1 in Hh1. cbn in Hh1.
  pose proof (condense_agent P ctx w1) as Ha2. rewrite H2 in Ha2. cbn in Ha2.
  assert (Hctx := setup_context _ _ _ _ _ H1). subst ctx.
  rewrite llm_response_cases in H4. cbn in H4.
  destruct (create_chat_completion P _ _ _) as [r|]; [|discriminate].
  injection H4 as <- _. cbn [calls]. rewrite Hh, formated_message_text. cbn zeta.
  assert (Hretrieval : ∃ retrieval,
            calls w3 = calls w2 ++ retrieval
            ∧ ((retriever (agent w1) = None ∧ retrieval = [] ∧ nodes = [])
               ∨ (∃ r scored,
                    retriever (agent w1) = Some r
                    ∧ similarity P (length (calls w2))
                        (default [] (search_index (agent w1))) cq
                      = OK scored
                    ∧ retrieval = [ARetrieve cq]
                    ∧ nodes = postprocess_nodes (similarity_cutoff (agent w1))
                                (take (similarity_top_k r)
                                   (merge_sort ranks_before scored))))).
  { revert H3. unfold retrieve, aretrieve. mred. rewrite Ha2.
    destruct (retriever (agent w1)) as [rt|]; cbn.
    - destruct (similarity P _ _ _) as [scored|e]; cbn; [|discriminate].
      intros [= <- <-]. exists [ARetrieve cq]. split; [done|].
      right. by exists rt, scored.
    - intros [= <- <-]. exists []. split; [by rewrite app_nil_r|]. by left. }
  destruct Hretrieval as (retrieval & Hcalls3 & Hretrieval).
  revert H2. unfold condense_history_to_query. mred.
  destruct (bool_decide (0 < length (chat_history (agent w1)))
            || bool_decide (retriever (agent w1) ≠ None)) eqn:Hcond.
  - assert (Hslow : ¬ (chat_history (agent w1) = [] ∧ retriever (agent w1) = None)).
    { intros Hf. apply fast_path_condition in Hf. rewrite Hf in Hcond. discriminate. }
    rewrite Hh1.
    destruct (convert_message_list_to_str (chat_history (agent w)))
      as [transcript|e]; cbn; [|discriminate].
    destruct (create_chat_completion P _ _ _) as [[rewrite|chunks fault]|e] eqn:Hmodel;
      cbn; [|discriminate..].
    intros [= Hw2 Hcq].
    eexists w1, _, _, cq, retrieval, nodes.
    split; [exact H1|]. split; [|split].
    + right. split; [exact Hslow|]. exists transcript, rewrite.
      split; [done|]. cbn zeta. split; [exact Hmodel|]. split; [reflexivity|].
      by rewrite <- Hcq.
    + rewrite <- Hw2 in Hretrieval. cbn [calls] in Hretrieval. exact Hretrieval.
    + rewrite Hcalls3, <- Hw2. cbn [calls]. by rewrite <- !(assoc_L (++)).
  - apply fast_path_condition in Hcond as [Hempty Hnone].
    intros [= Hw2 Hcq].
    eexists w1, _, [], cq, retrieval, nodes.
    split; [exact H1|]. split; [|split].
    + left. by rewrite <- Hcq.
    + rewrite <- Hw2 in Hretrieval. by rewrite app_nil_r.
    + rewrite Hcalls3, <- Hw2. by rewrite <- !(assoc_L (++)).
Qed.

Lemma run_calls_in_order_witness :
  let ev := ask "And its second page?" {[ "a.txt" ]} in
  let w' := (run sample ev after_a).1 in
  let summary :=
    [ {| role := "user";
         content :=
           CStr ("Given the chat history:" +:+ LF +:+
                 "'''" +:+ ("user: What is a.txt?" +:+ LF) +:+ "'''" +:+ LF +:+ LF +:+
                 "And the user asked the following question:" +:+
                 "And its second page?" +:+ LF +:+
                 "Rewrite to a standalone question:" +:+ LF) |} ] in
  let condensed :=
    "Context:" +:+ LF +:+ "What is a.txt?" +:+ LF +:+ "Question: "
      +:+ "And its second page?" in
  let text :=
    "Information that might help:" +:+ LF +:+
    "-----" +:+ LF +:+
    (LF +:+ "first page of a.txt" +:+ LF +:+ LF) +:+ LF +:+
    "-----" +:+ LF +:+
    "Please write a response to the following question, using the above information if relevant:" +:+ LF +:+
    "And its second page?" +:+ LF in
  run sample ev after_a = (w', OK (Stream sample_stream None))
  ∧ setup sample ev after_a
    = (after_a, OK {| query_str := "And its second page?"; image := None;
                      streaming := true |})
  ∧ calls w'
    = calls after_a
        ++ [ ChatCompletion summary false;
             ARetrieve condensed;
             ChatCompletion
               [ {| role := "user"; content := CStr "What is a.txt?" |};
                 {| role := "user"; content := CStr text |} ] true ].
Proof.
  cbn zeta.
  assert (Hrun : run sample (ask "And its second page?" {[ "a.txt" ]}) after_a
                 = ((run sample (ask "And its second page?" {[ "a.txt" ]}) after_a).1,
                    OK (Stream sample_stream None)))
    by (vm_compute; reflexivity).
  assert (Hsetup : setup sample (ask "And its second page?" {[ "a.txt" ]}) after_a
                   = (after_a, OK {| query_str := "And its second page?";
                                     image := None; streaming := true |}))
    by (vm_compute; reflexivity).
  assert (Hhist : chat_history (agent after_a)
                  = [ {| role := "user"; content := CStr "What is a.txt?" |} ])
    by (vm_compute; reflexivity).
  split; [exact Hrun|]. split; [exact Hsetup|].
  destruct (run_calls_in_order sample _ after_a _ _ Hrun)
    as (w1 & ctx & condensation & cq & retrieval & nodes
        & H1 & Hcondense & Hretrieve & Hcalls).
  rewrite Hsetup in H1. injection H1 as <- <-.
  destruct Hcondense as [(Hempty & _)|(_ & transcript & rewrite & Ht & Hc)];
    [rewrite Hhist in Hempty; discriminate Hempty|].
  rewrite Hhist in Ht. vm_compute in Ht. injection Ht as <-.
  cbn zeta in Hc. destruct Hc as (Hmodel & -> & ->).
  vm_compute in Hmodel. injection Hmodel as <-.
  destruct Hretrieve as [(Hnone & _)|(r & scored & Hr & Hs & -> & ->)];
    [vm_compute in Hnone; discriminate Hnone|].
  vm_compute in Hr. injection Hr as <-.
  vm_compute in Hs. injection Hs as <-.
  cbn zeta in Hcalls. rewrite Hcalls, Hhist. vm_compute. reflexivity.
Defined.

(** ** The screen capture widget *)

Lemma deliver_all_app qt l1 l2 w :
  ScreenCapture.deliver_all qt (l1 ++ l2) w
  = (let '(w1, calls1) := ScreenCapture.deliver_all qt l1 w in
     let '(w2, calls2) := ScreenCapture.deliver_all qt l2 w1 in
     (w2, calls1 ++ calls2)).
Proof.
  revert w; induction l1 as [|i l1 IH]; intros w; cbn [app ScreenCapture.deliver_all].
  - by destruct (ScreenCapture.deliver_all qt l2 w).
  - destruct (ScreenCapture.deliver qt i w) as [w1 c1]. rewrite IH.
    destruct (ScreenCapture.deliver_all qt l1 w1) as [w2 c2].
    destruct (ScreenCapture.deliver_all qt l2 w2) as [w3 c3].
    by rewrite (assoc_L (++)).
Qed.

(** While a truthy start point is set, moves only replace the end point. *)
Lemma deliver_moves qt p e rr moves :
  ScreenCapture.point_bool qt p = true ->
  ScreenCapture.deliver_all qt (ScreenCapture.Move <$> moves)
    {| ScreenCapture.start_point := Some p; ScreenCapture.end_point := e;
       ScreenCapture.region_rect := rr |}
  = ({| ScreenCapture.start_point := Some p;
        ScreenCapture.end_point :=
          match last moves with
          | Some m => Some (ScreenCapture.pos m)
          | None => e
          end;
        ScreenCapture.region_rect := rr |},
     replicate (length moves) ScreenCapture.Update).
Proof.
  intros Hp. revert e; induction moves as [|m rest IH]; intros e; [done|].
  cbn [fmap list_fmap ScreenCapture.deliver_all ScreenCapture.deliver].
  unfold ScreenCapture.mouseMoveEvent. cbn. rewrite Hp.
  change (list_fmap _ _ ScreenCapture.Move rest) with (ScreenCapture.Move <$> rest).
  rewrite IH. cbn [length replicate]. rewrite last_cons.
  by destruct (last rest).
Qed.

(** X16: a drag captures the rectangle from press to release.  When the
    left button is pressed at [p], the mouse moved along any path and the left
    button released at [r], both points being true for Qt, the widget grabs
    and saves exactly once, the region being the normalised rectangle between
    the screen positions of [p] and [r]; the path, and whatever was selected
    before, play no part; the selection is then from [p] to [r]. *)
Theorem drag_captures_press_to_release qt w p moves r :
  ScreenCapture.point_bool qt p = true ->
  ScreenCapture.point_bool qt r = true ->
  let left at_ := {| ScreenCapture.button := ScreenCapture.LeftButton;
                     ScreenCapture.pos := at_ |} in
  let selected := {| ScreenCapture.start_point := Some p;
                     ScreenCapture.end_point := Some r;
                     ScreenCapture.region_rect := ScreenCapture.region_rect w |} in
  ScreenCapture.deliver_all qt
    (ScreenCapture.Press (left p) :: (ScreenCapture.Move <$> moves)
       ++ [ScreenCapture.Release (left r)]) w
  = (selected,
     replicate (length moves) ScreenCapture.Update
       ++ ScreenCapture.capture_region qt p r
       ++ [ScreenCapture.Update]
       ++ (ScreenCapture.show_buttons qt selected).2).
Proof.
  intros Hp Hr left selected. subst left.
  cbn [ScreenCapture.deliver_all ScreenCapture.deliver].
  unfold ScreenCapture.mousePressEvent. cbn [ScreenCapture.button].
  rewrite deliver_all_app, (deliver_moves qt p _ _ moves Hp).
  cbn [ScreenCapture.deliver_all ScreenCapture.deliver].
  unfold ScreenCapture.mouseReleaseEvent.
  cbn [ScreenCapture.button ScreenCapture.pos ScreenCapture.start_point
       ScreenCapture.region_rect].
  change {| ScreenCapture.start_point := Some p;
            ScreenCapture.end_point := Some r;
            ScreenCapture.region_rect := ScreenCapture.region_rect w |}
    with selected.
  assert (Hsel : ScreenCapture.selection qt selected = Some (p, r)).
  { unfold ScreenCapture.selection. cbn. by rewrite Hp, Hr. }
  rewrite Hsel.
  destruct (ScreenCapture.show_buttons qt selected) as [w2 c2] eqn:Hb.
  assert (w2 = selected) as ->.
  { revert Hb. unfold ScreenCapture.show_buttons. rewrite Hsel. by intros [= <- _]. }
  cbn [snd]. f_equal. rewrite app_nil_r. cbn [app].
  by rewrite <- !(assoc_L (++)).
Qed.

Lemma drag_captures_press_to_release_witness :
  let left at_ := {| ScreenCapture.button := ScreenCapture.LeftButton;
                     ScreenCapture.pos := at_ |} in
  (ScreenCapture.deliver_all ScreenCapture.plain_qt
     (ScreenCapture.Press (left (40, 30)%Z)
        :: (ScreenCapture.Move <$> [left (10, 90)%Z; left (5, 5)%Z])
        ++ [ScreenCapture.Release (left (140, 80)%Z)])
     ScreenCapture.init).2
  = [ ScreenCapture.Update; ScreenCapture.Update;
      ScreenCapture.GrabWindow 0 40 30 101 51; ScreenCapture.SavePixmap;
      ScreenCapture.Update;
      ScreenCapture.SetGeometry ScreenCapture.OcrButton 0 0 80 30;
      ScreenCapture.SetGeometry ScreenCapture.AskButton 90 0 80 30;
      ScreenCapture.SetGeometry ScreenCapture.ButtonWidget 40 90 170 30;
      ScreenCapture.SetTranslucentBackground;
      ScreenCapture.SetFramelessWindowHint;
      ScreenCapture.ShowButtons ].
Proof.
  cbn zeta.
  exact (f_equal snd
           (drag_captures_press_to_release ScreenCapture.plain_qt ScreenCapture.init
              (40, 30)%Z
              [ {| ScreenCapture.button := ScreenCapture.LeftButton;
                   ScreenCapture.pos := (10, 90)%Z |};
                {| ScreenCapture.button := ScreenCapture.LeftButton;
                   ScreenCapture.pos := (5, 5)%Z |} ]
              (140, 80)%Z eq_refl eq_refl)).
Defined.

(** Without a start point that is true, and without a left press, nothing
    visible happens and the start point stays as it is. *)
Lemma no_start_nothing_visible qt inputs w :
  match ScreenCapture.start_point w with
  | Some s => ScreenCapture.point_bool qt s = false
  | None => True
  end ->
  Forall (λ i, ¬ ScreenCapture.left_press i) inputs ->
  Forall (λ c, ¬ ScreenCapture.visible c) (ScreenCapture.deliver_all qt inputs w).2.
Proof.
  intros Hstart Hinputs. revert w Hstart.
  induction Hinputs as [|i rest Hi _ IH]; intros w Hstart; [constructor|].
  cbn [ScreenCapture.deliver_all].
  assert (Hsel : ScreenCapture.selection qt w = None).
  { unfold ScreenCapture.selection.
    destruct (ScreenCapture.start_point w) as [s|]; [|done].
    rewrite Hstart. by destruct (ScreenCapture.end_point w). }
  assert (Hstep :
    match ScreenCapture.start_point (ScreenCapture.deliver qt i w).1 with
    | Some s => ScreenCapture.point_bool qt s = false
    | None => True
    end ∧ Forall (λ c, ¬ ScreenCapture.visible c) (ScreenCapture.deliver qt i w).2).
  { destruct i as [| |ev|ev|ev|]; cbn [ScreenCapture.deliver].
    - split; [done|]. repeat constructor; by intros [].
    - split; [done|]. repeat constructor; by intros [].
    - unfold ScreenCapture.mousePressEvent.
      destruct ev as [[] p]; cbn; [|by split; [|constructor]..].
      destruct Hi. by exists p.
    - unfold ScreenCapture.mouseReleaseEvent, ScreenCapture.show_buttons.
      destruct (ScreenCapture.button ev).
      + assert (ScreenCapture.selection qt
                  {| ScreenCapture.start_point := ScreenCapture.start_point w;
                     ScreenCapture.end_point := Some (ScreenCapture.pos ev);
                     ScreenCapture.region_rect := ScreenCapture.region_rect w |}
                = None) as ->.
        { unfold ScreenCapture.selection. cbn.
          destruct (ScreenCapture.start_point w) as [s|]; [|done]. by rewrite Hstart. }
        cbn. split; [done|]. repeat constructor; by intros [].
      + rewrite Hsel. cbn. split; [done | constructor].
      + rewrite Hsel. cbn. split; [done | constructor].
    - unfold ScreenCapture.mouseMoveEvent.
      destruct (ScreenCapture.start_point w) as [s|] eqn:Hs; cbn.
      + rewrite Hstart. cbn. rewrite Hs. split; [done | constructor].
      + rewrite Hs. split; [done | constructor].
    - unfold ScreenCapture.paintEvent. rewrite Hsel. cbn.
      split; [done|]. repeat constructor; by intros []. }
  destruct (ScreenCapture.deliver qt i w) as [w1 c1]. cbn in Hstep.
  destruct Hstep as [H1 Hc1]. specialize (IH w1 H1).
  destruct (ScreenCapture.deliver_all qt rest w1) as [w2 c2]. cbn in *.
  by apply Forall_app.
Qed.

(** X17: once the widget has been shown, nothing is drawn, grabbed, saved or
    placed on the screen, whatever is delivered to it (moves, releases of any
    button, presses of other buttons, paints, hides, further shows), until
    the left button is pressed. *)
Theorem shown_widget_waits_for_left_press qt w inputs :
  Forall (λ i, ¬ ScreenCapture.left_press i) inputs ->
  Forall (λ c, ¬ ScreenCapture.visible c)
    (ScreenCapture.deliver_all qt (ScreenCapture.Show :: inputs) w).2.
Proof.
  intros Hinputs. cbn [ScreenCapture.deliver_all ScreenCapture.deliver].
  unfold ScreenCapture.show.
  match goal with |- context [ScreenCapture.deliver_all qt inputs ?w1] =>
    pose proof (no_start_nothing_visible qt inputs w1 I Hinputs) as Hrest;
    destruct (ScreenCapture.deliver_all qt inputs w1) as [w2 c2] end.
  cbn in *. repeat (constructor; [by intros []|]). exact Hrest.
Qed.

Lemma shown_widget_waits_for_left_press_witness :
  let at_ b p := {| ScreenCapture.button := b; ScreenCapture.pos := p |} in
  let selected := {| ScreenCapture.start_point := Some (40, 30)%Z;
                     ScreenCapture.end_point := Some (140, 80)%Z;
                     ScreenCapture.region_rect := None |} in
  Forall (λ c, ¬ ScreenCapture.visible c)
    (ScreenCapture.deliver_all ScreenCapture.plain_qt
       (ScreenCapture.Show
          :: [ ScreenCapture.Paint;
               ScreenCapture.Move (at_ ScreenCapture.LeftButton (60, 60)%Z);
               ScreenCapture.Release (at_ ScreenCapture.LeftButton (70, 70)%Z);
               ScreenCapture.Press (at_ ScreenCapture.RightButton (80, 80)%Z);
               ScreenCapture.Release (at_ ScreenCapture.RightButton (80, 80)%Z);
               ScreenCapture.Paint; ScreenCapture.Hide ])
       selected).2.
Proof.
  cbn zeta.
  apply (shown_widget_waits_for_left_press ScreenCapture.plain_qt).
  repeat constructor; intros [p H]; discriminate.
Defined.

(** X18: a selection whose start point is false for Qt is never captured:
    after a left press at such a point nothing is drawn, grabbed, saved or
    placed on the screen, whatever is delivered next, until the left button
    is pressed again. *)
Theorem false_start_point_never_captured qt w p inputs :
  ScreenCapture.point_bool qt p = false ->
  Forall (λ i, ¬ ScreenCapture.left_press i) inputs ->
  Forall (λ c, ¬ ScreenCapture.visible c)
    (ScreenCapture.deliver_all qt
       (ScreenCapture.Press {| ScreenCapture.button := ScreenCapture.LeftButton;
                               ScreenCapture.pos := p |} :: inputs) w).2.
Proof.
  intros Hp Hinputs. cbn [ScreenCapture.deliver_all ScreenCapture.deliver].
  unfold ScreenCapture.mousePressEvent. cbn [ScreenCapture.button ScreenCapture.pos].
  match goal with |- context [ScreenCapture.deliver_all qt inputs ?w1] =>
    pose proof (no_start_nothing_visible qt inputs w1 Hp Hinputs) as Hrest;
    destruct (ScreenCapture.deliver_all qt inputs w1) as [w2 c2] end.
  exact Hrest.
Qed.

Lemma false_start_point_never_captured_witness :
  let at_ b p := {| ScreenCapture.button := b; ScreenCapture.pos := p |} in
  Forall (λ c, ¬ ScreenCapture.visible c)
    (ScreenCapture.deliver_all ScreenCapture.plain_qt
       (ScreenCapture.Press (at_ ScreenCapture.LeftButton (0, 0)%Z)
          :: [ ScreenCapture.Move (at_ ScreenCapture.LeftButton (60, 60)%Z);
               ScreenCapture.Paint;
               ScreenCapture.Release (at_ ScreenCapture.LeftButton (140, 80)%Z);
               ScreenCapture.Paint ])
       ScreenCapture.init).2.
Proof.
  cbn zeta.
  apply (false_start_point_never_captured ScreenCapture.plain_qt ScreenCapture.init
           (0, 0)%Z).
  - reflexivity.
  - repeat constructor; intros [p H]; discriminate.
Defined.
